(** * A shallow embedding of the hunger-games engine (game/Character.py,
    game/Check.py, game/Game.py) and the properties of its specification. *)

From Stdlib Require Import ZArith String Bool List Lia.
From stdpp Require Import base gmap list strings.
Import ListNotations.
Open Scope string_scope.

(** Python exceptions: a computation either returns a value or raises. *)
Inductive result (A : Type) : Type :=
| Ok (a : A)
| Raise (msg : string).
Arguments Ok {A} a.
Arguments Raise {A} msg.

(** ** Collaborators of Character.py that are not in src/ *)

(** Modelled from the spec: [Item] (game/Item.py). An item object has an
    identity, a name and tags; [hasAllTags] and [getName] are the two
    queries the spec lists. *)
Record Item := mkItem {
  item_id : nat;
  item_name : string;
  item_tags : list string
}.

(** Modelled from the spec: [Item.hasAllTags(tags)], every tag is one of
    the item's. *)
Definition Item_hasAllTags (i : Item) (tags : list string) : bool :=
  forallb (fun t => existsb (String.eqb t) (item_tags i)) tags.

(** Modelled from the spec: [Item.getName()]. *)
Definition Item_getName (i : Item) : string := item_name i.

(** Modelled from the spec: [Zone] (game/Map.py), an object with a name. *)
Record Zone := mkZone {
  zone_id : nat;
  zone_name : string
}.

(** ** Character (game/Character.py) *)

(** Character objects and alliance lists live in a heap; a character's
    [alliance] attribute is a reference to a (shared) list object. *)
Definition CRef := nat.
Definition LRef := nat.

Record Character := mkCharacter {
  name : string;
  imgSrc : option string;
  subj : string; obj : string; plur1 : string; plur2 : string; flex : string;
  plural : bool;
  items : list Item;
  tags : list string;
  location : option Zone;
  alliance : LRef;
  alive : bool;
  age : Z;
  roundsSurvived : Z
}.

Section CharacterEquality.

(** Python [==] on items and zones ([Item.__eq__], [Zone.__eq__]), which are
    not part of src/. *)
Variable item_eq : Item -> Item -> bool.
Variable zone_eq : Zone -> Zone -> bool.

(** [list.__eq__] on items: same length and pairwise [is] or [==]. *)
Fixpoint items_eq (l1 l2 : list Item) : bool :=
  match l1, l2 with
  | [], [] => true
  | a :: r1, b :: r2 =>
      ((item_id a =? item_id b)%nat || item_eq a b) && items_eq r1 r2
  | _, _ => false
  end.

Fixpoint tags_eq (l1 l2 : list string) : bool :=
  match l1, l2 with
  | [], [] => true
  | a :: r1, b :: r2 => String.eqb a b && tags_eq r1 r2
  | _, _ => false
  end.

(** [self.location == o.location], where a location is a Zone or None. *)
Definition location_eq (l1 l2 : option Zone) : bool :=
  match l1, l2 with
  | None, None => true
  | Some z1, Some z2 => zone_eq z1 z2
  | _, _ => false
  end.

Definition option_string_eq (a b : option string) : bool :=
  match a, b with
  | None, None => true
  | Some x, Some y => String.eqb x y
  | _, _ => false
  end.

(** [Character.__eq__]: the alliance is left out, as the source comment says. *)
Definition Character_eq (self o : Character) : bool :=
  forallb id [
    String.eqb (name self) (name o);
    option_string_eq (imgSrc self) (imgSrc o);
    String.eqb (subj self) (subj o); String.eqb (obj self) (obj o);
    String.eqb (plur1 self) (plur1 o); String.eqb (plur2 self) (plur2 o);
    String.eqb (flex self) (flex o); Bool.eqb (plural self) (plural o);
    items_eq (items self) (items o);
    tags_eq (tags self) (tags o);
    location_eq (location self) (location o);
    Bool.eqb (alive self) (alive o)
  ].

End CharacterEquality.

(** The tuple hashed by [Character.__hash__]. *)
Definition HashKey : Type :=
  (string * option string * string * string * string * string * string * bool)%type.

Section CharacterHash.
(** Python's [hash] on tuples. *)
Variable py_hash : HashKey -> Z.

Definition Character_hash (self : Character) : Z :=
  py_hash (name self, imgSrc self,
           subj self, obj self, plur1 self, plur2 self, flex self, plural self).
End CharacterHash.

Section CharacterString.
(** [str.lower], [str.capitalize], [str.isupper] on one character, and the
    [inflect] library's [plural]. *)
Variable py_lower : string -> string.
Variable py_capitalize : string -> string.
Variable py_isupper : Ascii.ascii -> bool.
Variable inflect_plural : string -> string.

(** [Character.string(tag)] *)
Definition Character_string (self : Character) (tag : option string) : string :=
  match tag with
  | None | Some EmptyString => name self
  | Some (String t0 _ as t) =>
      let lcTag := py_lower t in
      let toRet :=
        if String.eqb lcTag "they" then subj self
        else if String.eqb lcTag "them" then obj self
        else if String.eqb lcTag "their" then plur1 self
        else if String.eqb lcTag "theirs" then plur2 self
        else if String.eqb lcTag "themself" then flex self
        else if String.eqb lcTag "they're" then
          subj self ++ (if plural self then "'re" else "'s")
        else if String.eqb lcTag "weren't" then
          (if plural self then lcTag else "wasn't")
        else if String.eqb lcTag "aren't" then
          (if plural self then lcTag else "isn't")
        else if negb (plural self) then inflect_plural t else t in
      if py_isupper t0 then py_capitalize toRet else toRet
  end.
End CharacterString.

(** ** Alliances: shared mutable lists (Character.joinAlliance / leaveAlliance) *)

(** The object heap: character objects, list objects holding character
    references, and the next unused list address (a fresh [[]] literal). *)
Record Heap := mkHeap {
  h_chars : gmap CRef Character;
  h_lists : gmap LRef (list CRef);
  h_next : LRef
}.

(** [self.alliance = L] *)
Definition set_alliance (c : Character) (L : LRef) : Character :=
  mkCharacter (name c) (imgSrc c) (subj c) (obj c) (plur1 c) (plur2 c) (flex c)
    (plural c) (items c) (tags c) (location c) L (alive c) (age c)
    (roundsSurvived c).

(** The contents of the list object at [L]. *)
Definition list_of (h : Heap) (L : LRef) : list CRef :=
  default [] (h_lists h !! L).

Section Alliances.

Variable item_eq : Item -> Item -> bool.
Variable zone_eq : Zone -> Zone -> bool.

(** Python's comparison of two character objects in [in] and [list.remove]:
    [a is b or a == b]. *)
Definition py_eq (h : Heap) (a b : CRef) : bool :=
  (a =? b)%nat ||
  match h_chars h !! a, h_chars h !! b with
  | Some ca, Some cb => Character_eq item_eq zone_eq ca cb
  | _, _ => false
  end.

(** [list.remove(x)]: drop the first element equal to [x]; [None] is the
    [ValueError] raised when there is none. *)
Fixpoint py_remove (h : Heap) (x : CRef) (l : list CRef) : option (list CRef) :=
  match l with
  | [] => None
  | e :: rest =>
      if py_eq h e x then Some rest
      else match py_remove h x rest with
           | Some rest' => Some (e :: rest')
           | None => None
           end
  end.

(** [isAlone]: [len(self.alliance) == 0] *)
Definition isAlone (h : Heap) (self : CRef) : bool :=
  match h_chars h !! self with
  | Some c => (length (list_of h (alliance c)) =? 0)%nat
  | None => false
  end.

(** [isAllyOf]: [other in self.alliance] *)
Definition isAllyOf (h : Heap) (self other : CRef) : bool :=
  match h_chars h !! self with
  | Some c => existsb (fun e => py_eq h e other) (list_of h (alliance c))
  | None => false
  end.

(** [joinAlliance(alliance)]: [self.alliance = alliance; self.alliance.append(self)] *)
Definition joinAlliance (h : Heap) (self : CRef) (L : LRef) : Heap :=
  match h_chars h !! self with
  | Some c =>
      mkHeap (<[self := set_alliance c L]> (h_chars h))
             (<[L := (list_of h L ++ [self])%list]> (h_lists h))
             (h_next h)
  | None => h
  end.

(** [leaveAlliance()]:
    [if self.isAlone(): return; self.alliance.remove(self); self.alliance = []] *)
Definition leaveAlliance (h : Heap) (self : CRef) : result Heap :=
  match h_chars h !! self with
  | Some c =>
      if isAlone h self then Ok h
      else
        match py_remove h self (list_of h (alliance c)) with
        | None => Raise "ValueError: list.remove(x): x not in list"
        | Some rest =>
            let fresh := h_next h in
            Ok (mkHeap (<[self := set_alliance c fresh]> (h_chars h))
                       (<[fresh := []]> (<[alliance c := rest]> (h_lists h)))
                       (S fresh))
        end
  | None => Ok h
  end.

End Alliances.

(** Well-formed heaps: every alliance reference points to a list object,
    alliance lists hold distinct live characters, and the list addresses in
    use lie below [h_next]. *)
Definition heap_wf (h : Heap) : Prop :=
  map_Forall (fun _ c => is_Some (h_lists h !! alliance c)) (h_chars h) /\
  map_Forall (fun _ members =>
    NoDup members /\ Forall (fun r => is_Some (h_chars h !! r)) members) (h_lists h) /\
  map_Forall (fun L _ => (L < h_next h)%nat) (h_lists h).

(** The alliance invariant of the spec: a non-empty alliance list is
    referenced by every one of its members and by no non-member. *)
Definition alliance_inv (h : Heap) : Prop :=
  map_Forall (fun L members => members <> [] ->
    map_Forall (fun r c => alliance c = L <-> r ∈ members) (h_chars h)) (h_lists h).

#[global] Instance heap_wf_dec h : Decision (heap_wf h).
Proof. unfold heap_wf. apply _. Defined.

#[global] Instance alliance_inv_dec h : Decision (alliance_inv h).
Proof. unfold alliance_inv. apply _. Defined.

(** Settles a decidable proposition about concrete data by evaluation. *)
Ltac by_eval :=
  match goal with |- ?P => apply (bool_decide_unpack P); vm_compute; exact I end.

(** A tribute with default pronouns, no items, tags or location, in the
    alliance list [L]. *)
Definition tribute (n : string) (L : LRef) : Character :=
  mkCharacter n None "they" "them" "their" "theirs" "themself" true [] [] None L
    true 0%Z 0%Z.

(** Two allies [A] and [B] sharing the list 0, and [C] in a list 1 of its
    own (a one-element alliance). *)
Definition two_alliances : Heap :=
  mkHeap (<[0 := tribute "A" 0]> (<[1 := tribute "B" 0]> (<[2 := tribute "C" 1]> ∅)))
         (<[0 := [0; 1]]> (<[1 := [2]]> ∅)) 2.

(** The allies [A] and [B] in the list 0, and [C] alone with an empty list 1. *)
Definition one_alliance : Heap :=
  mkHeap (<[0 := tribute "A" 0]> (<[1 := tribute "B" 0]> (<[2 := tribute "C" 1]> ∅)))
         (<[0 := [0; 1]]> (<[1 := []]> ∅)) 2.

(** Items and zones compared by their ids. *)
Definition item_eq_by_id (a b : Item) : bool := (item_id a =? item_id b)%nat.
Definition zone_eq_by_id (a b : Zone) : bool := (zone_id a =? zone_id b)%nat.

(** ** Conditions (game/Check.py) *)

(** One constructor per Check subclass, with the attributes its [__init__]
    sets. *)
Inductive Check :=
| NearbyCheck (state : string) (targetShort : option string)
| AliveCheck (aState : string)
| AloneCheck (state : string)
| RelationCheck (relationship : string) (targetShort : string)
| TagCheck (tag : string)
| ItemCheck (rType : string) (itemShort : string) (itemTags : list string)
| CreateCheck (rType : string) (itemShort : string) (itemTags : list string)
    (citems : list Item)
| LocationCheck (locName : string)
| LimitCheck (cType : string) (count : Z).

(** [type(check) == AliveCheck] *)
Definition is_AliveCheck (c : Check) : bool :=
  match c with AliveCheck _ => true | _ => false end.

(** [type(check) == NearbyCheck] *)
Definition is_NearbyCheck (c : Check) : bool :=
  match c with NearbyCheck _ _ => true | _ => false end.

(** *** Construction from token lists *)

Section Construction.

(** Modelled from the spec: the identifier registry [Valids] of
    game/Valids.py (§4.1). [add*] register a shorthand, [validate*] raise a
    [ValidationError] on an unknown one, and the catalog lookups raise when
    no item satisfies the filter. *)
Variable Valids : Type.
Variable addCharShort : string -> Valids -> Valids.
Variable validateCharShort : string -> Valids -> result unit.
Variable addItemShortToValids : string -> Valids -> Valids.
Variable addTagNameToValids : string -> Valids -> Valids.
Variable validateLoadedItemTag : string -> Valids -> result unit.
Variable validateLoadedZoneName : string -> Valids -> result unit.
Variable validateIsInt : string -> result unit.
Variable getLoadedItemsWithTags : list string -> Valids -> result (list Item).
Variable getLoadedItemWithName : string -> Valids -> result (list Item).
(** Python's [int(s)] on a string accepted by [validateIsInt]. *)
Variable py_int : string -> Z.

Definition unpack_error {A} : result A :=
  Raise "ValueError: wrong number of values to unpack".

(** [for tag in self.itemTags: validateLoadedItemTag(tag, valids)] *)
Fixpoint validate_item_tags (tags : list string) (valids : Valids) : result unit :=
  match tags with
  | [] => Ok tt
  | t :: rest =>
      match validateLoadedItemTag t valids with
      | Ok _ => validate_item_tags rest valids
      | Raise m => Raise m
      end
  end.

Definition NearbyCheck_init (args : list string) (valids : Valids)
  : result Check * Valids :=
  match args with
  | [st; targetShort] =>
      if String.eqb st "nearby" then
        match validateCharShort targetShort valids with
        | Ok _ => (Ok (NearbyCheck st (Some targetShort)), valids)
        | Raise m => (Raise m, valids)
        end
      else (unpack_error, valids)
  | [st] => (Ok (NearbyCheck st None), valids)
  | _ => (unpack_error, valids)
  end.

Definition AliveCheck_init (args : list string) (valids : Valids)
  : result Check * Valids :=
  match args with
  | [aState] => (Ok (AliveCheck aState), valids)
  | _ => (unpack_error, valids)
  end.

Definition AloneCheck_init (args : list string) (valids : Valids)
  : result Check * Valids :=
  match args with
  | [st] => (Ok (AloneCheck st), valids)
  | _ => (unpack_error, valids)
  end.

Definition RelationCheck_init (args : list string) (valids : Valids)
  : result Check * Valids :=
  match args with
  | [relationship; targetShort] =>
      match validateCharShort targetShort valids with
      | Ok _ => (Ok (RelationCheck relationship targetShort), valids)
      | Raise m => (Raise m, valids)
      end
  | _ => (unpack_error, valids)
  end.

Definition TagCheck_init (args : list string) (valids : Valids)
  : result Check * Valids :=
  match args with
  | [_; tag] => (Ok (TagCheck tag), addTagNameToValids tag valids)
  | _ => (unpack_error, valids)
  end.

Definition ItemCheck_init (args : list string) (valids : Valids)
  : result Check * Valids :=
  match args with
  | rType :: itemShort :: itemTags =>
      let valids := addItemShortToValids itemShort valids in
      if String.eqb rType "item" then
        match validate_item_tags itemTags valids with
        | Ok _ => (Ok (ItemCheck rType itemShort itemTags), valids)
        | Raise m => (Raise m, valids)
        end
      else (Ok (ItemCheck rType itemShort itemTags), valids)
  | _ => (unpack_error, valids)
  end.

Definition CreateCheck_init (args : list string) (valids : Valids)
  : result Check * Valids :=
  match args with
  | rType :: itemShort :: itemTags =>
      let valids := addItemShortToValids itemShort valids in
      let validated :=
        if String.eqb rType "create" then validate_item_tags itemTags valids
        else Ok tt in
      match validated with
      | Raise m => (Raise m, valids)
      | Ok _ =>
          let pool :=
            if String.eqb rType "create" then getLoadedItemsWithTags itemTags valids
            else match itemTags with
                 | n :: _ => getLoadedItemWithName n valids
                 | [] => Raise "IndexError: list index out of range"
                 end in
          match pool with
          | Ok its => (Ok (CreateCheck rType itemShort itemTags its), valids)
          | Raise m => (Raise m, valids)
          end
      end
  | _ => (unpack_error, valids)
  end.

Definition LocationCheck_init (args : list string) (valids : Valids)
  : result Check * Valids :=
  match args with
  | [_; locName] =>
      match validateLoadedZoneName locName valids with
      | Ok _ => (Ok (LocationCheck locName), valids)
      | Raise m => (Raise m, valids)
      end
  | _ => (unpack_error, valids)
  end.

Definition LimitCheck_init (args : list string) (valids : Valids)
  : result Check * Valids :=
  match args with
  | [_; cType; cnt] =>
      match validateIsInt cnt with
      | Ok _ => (Ok (LimitCheck cType (py_int cnt)), valids)
      | Raise m => (Raise m, valids)
      end
  | _ => (unpack_error, valids)
  end.

(** [ALLCHECKCLASSES]: each class's [matches] and its constructor. *)
Definition ALLCHECKCLASSES
  : list (list string * (list string -> Valids -> result Check * Valids)) :=
  [ (["nearby"; "anydistance"], NearbyCheck_init);
    (["alive"; "dead"], AliveCheck_init);
    (["alone"; "allied"], AloneCheck_init);
    (["ally"; "enemy"], RelationCheck_init);
    (["tag"], TagCheck_init);
    (["item"; "itemeq"], ItemCheck_init);
    (["create"; "createeq"], CreateCheck_init);
    (["in"], LocationCheck_init);
    (["limit"], LimitCheck_init) ].

(** The class of [ALLCHECKCLASSES] whose [matches] contain the token. *)
Fixpoint find_class (tok : string)
  (classes : list (list string * (list string -> Valids -> result Check * Valids)))
  : option (list string -> Valids -> result Check * Valids) :=
  match classes with
  | [] => None
  | (ms, init) :: rest =>
      if existsb (String.eqb tok) ms then Some init else find_class tok rest
  end.

(** Modelled from the spec: [Suite.load] of game/Valids.py (§4.2, §4.3).
    Each argument list is instantiated, in order, into exactly one Condition
    by the class whose discriminators contain its first token, and appended
    to the suite's list; an unknown discriminator raises
    [EventPartException]. *)
Fixpoint Suite_load (valids : Valids)
  (classes : list (list string * (list string -> Valids -> result Check * Valids)))
  (argsLists : list (list string)) (target : list Check)
  : result (list Check) * Valids :=
  match argsLists with
  | [] => (Ok target, valids)
  | args :: rest =>
      match args with
      | [] => (Raise "EventPartException: empty condition", valids)
      | tok :: _ =>
          match find_class tok classes with
          | None => (Raise "EventPartException: unknown condition type", valids)
          | Some init =>
              match init args valids with
              | (Ok c, valids') => Suite_load valids' classes rest (target ++ [c])%list
              | (Raise m, valids') => (Raise m, valids')
              end
          end
      end
  end.

(** [CheckSuite]: its character shorthand, its authored argument lists and
    its conditions. *)
Record CheckSuite := mkCheckSuite {
  charShort : string;
  argsLists : list (list string);
  checks : list Check
}.

(** [CheckSuite.__init__]: [self.checks = []]. *)
Definition CheckSuite_init (cs : string) (al : list (list string)) : CheckSuite :=
  mkCheckSuite cs al [].

Definition with_checks (s : CheckSuite) (cs : list Check) : CheckSuite :=
  mkCheckSuite (charShort s) (argsLists s) cs.

(** [CheckSuite.load] *)
Definition CheckSuite_load (self : CheckSuite) (valids : Valids)
  : result CheckSuite * Valids :=
  let valids := addCharShort (charShort self) valids in
  match Suite_load valids ALLCHECKCLASSES (argsLists self) (checks self) with
  | (Raise m, valids) => (Raise m, valids)
  | (Ok cs, valids) =>
      if negb (existsb is_AliveCheck cs) then
        match AliveCheck_init ["alive"] valids with
        | (Ok a, valids) => (Ok (with_checks self (a :: cs)), valids)
        | (Raise m, valids) => (Raise m, valids)
        end
      else (Ok (with_checks self cs), valids)
  end.

(** [CheckSuite.addNearbyCheckIfNeeded] *)
Definition addNearbyCheckIfNeeded (self : CheckSuite) (valids : Valids)
  : result CheckSuite * Valids :=
  if negb (existsb is_AliveCheck (checks self)) then
    match NearbyCheck_init ["nearby"] valids with
    | (Ok n, valids) => (Ok (with_checks self (n :: checks self)), valids)
    | (Raise m, valids) => (Raise m, valids)
    end
  else (Ok self, valids).

End Construction.

(** *** Character queries used by the conditions *)

#[global] Instance Character_inhabited : Inhabited Character :=
  populate (mkCharacter "" None "" "" "" "" "" false [] [] None 0 true 1 0).

(** [getItemByTags]: the first item having all the tags. *)
Fixpoint first_item_with_tags (its : list Item) (tgs : list string) : option Item :=
  match its with
  | [] => None
  | i :: rest => if Item_hasAllTags i tgs then Some i else first_item_with_tags rest tgs
  end.

(** [getItemByName]: the first item with that name. *)
Fixpoint first_item_named (its : list Item) (itemName : string) : option Item :=
  match its with
  | [] => None
  | i :: rest =>
      if String.eqb (Item_getName i) itemName then Some i else first_item_named rest itemName
  end.

Definition getItemByTags (h : Heap) (self : CRef) (tgs : list string) : option Item :=
  first_item_with_tags (items (h_chars h !!! self)) tgs.

Definition getItemByName (h : Heap) (self : CRef) (itemName : string) : option Item :=
  first_item_named (items (h_chars h !!! self)) itemName.

Definition isAlive (h : Heap) (self : CRef) : bool := alive (h_chars h !!! self).

Definition hasTag (h : Heap) (self : CRef) (tag : string) : bool :=
  existsb (String.eqb tag) (tags (h_chars h !!! self)).

(** [isIn]: [self.location.name == loc]; with no location, [None.name]
    raises. *)
Definition isIn (h : Heap) (self : CRef) (loc : string) : result bool :=
  match location (h_chars h !!! self) with
  | Some z => Ok (String.eqb (zone_name z) loc)
  | None => Raise "AttributeError: 'NoneType' object has no attribute 'name'"
  end.

Definition isNearby (zone_eq : Zone -> Zone -> bool) (h : Heap) (self other : CRef) : bool :=
  location_eq zone_eq (location (h_chars h !!! self)) (location (h_chars h !!! other)).

(** *** Evaluation ([Check.check] and [CheckSuite.checkAll]) *)

Section Evaluation.

Variable item_eq : Item -> Item -> bool.
Variable zone_eq : Zone -> Zone -> bool.

(** The simulation [State] (game/State.py, not in src/), through the
    operations the spec lists for it (§6). *)
Variable State : Type.
Variable getChar : option string -> State -> CRef.
Variable setItem : string -> Item -> State -> State.
Variable getTriggersFor : CRef -> State -> Z.
Variable getTotalTriggers : State -> Z.
(** The process-wide pseudorandom source and [random.choice], which raises
    on an empty list. *)
Variable Rng : Type.
Variable py_choice : list Item -> Rng -> result Item * Rng.

Definition check (c : Check) (h : Heap) (char : CRef) (state : State) (rng : Rng)
  : result bool * State * Rng :=
  match c with
  | NearbyCheck st targetShort =>
      if String.eqb st "nearby" then
        let target := getChar targetShort state in
        (Ok (isNearby zone_eq h char target), state, rng)
      else (Ok true, state, rng)
  | AliveCheck aState =>
      if String.eqb aState "alive" then (Ok (isAlive h char), state, rng)
      else (Ok (negb (isAlive h char)), state, rng)
  | AloneCheck st =>
      if String.eqb st "alone" && isAlone h char then (Ok true, state, rng)
      else if String.eqb st "allied" && negb (isAlone h char) then (Ok true, state, rng)
      else (Ok false, state, rng)
  | RelationCheck relationship targetShort =>
      let target := getChar (Some targetShort) state in
      if String.eqb relationship "ally" && isAllyOf item_eq zone_eq h char target
      then (Ok true, state, rng)
      else if String.eqb relationship "enemy" && negb (isAllyOf item_eq zone_eq h char target)
      then (Ok true, state, rng)
      else (Ok false, state, rng)
  | TagCheck tag => (Ok (hasTag h char tag), state, rng)
  | ItemCheck rType itemShort itemTags =>
      let item :=
        if String.eqb rType "item" then Ok (getItemByTags h char itemTags)
        else match itemTags with
             | n :: _ => Ok (getItemByName h char n)
             | [] => Raise "IndexError: list index out of range"
             end in
      match item with
      | Raise m => (Raise m, state, rng)
      | Ok None => (Ok false, state, rng)
      | Ok (Some i) => (Ok true, setItem itemShort i state, rng)
      end
  | CreateCheck _ itemShort _ its =>
      match py_choice its rng with
      | (Ok i, rng) => (Ok true, setItem itemShort i state, rng)
      | (Raise m, rng) => (Raise m, state, rng)
      end
  | LocationCheck locName => (isIn h char locName, state, rng)
  | LimitCheck cType cnt =>
      if String.eqb cType "perchar" then (Ok (getTriggersFor char state <=? cnt)%Z, state, rng)
      else (Ok (getTotalTriggers state <=? cnt)%Z, state, rng)
  end.

(** [checkAll]: every condition, in order, without short-circuit. *)
Fixpoint checkAll (cs : list Check) (h : Heap) (char : CRef) (state : State) (rng : Rng)
  : result (list bool) * State * Rng :=
  match cs with
  | [] => (Ok [], state, rng)
  | ep :: rest =>
      match check ep h char state rng with
      | (Ok res, state, rng) =>
          match checkAll rest h char state rng with
          | (Ok ress, state, rng) => (Ok (res :: ress), state, rng)
          | (Raise m, state, rng) => (Raise m, state, rng)
          end
      | (Raise m, state, rng) => (Raise m, state, rng)
      end
  end.

End Evaluation.

(** ** The event resolution engine (game/Game.py) *)

Section Engine.

(** Character objects of the cast, and [Character.string()] called without
    a tag (which is the character's name, see [Character_string_notag]). *)
Variable Char : Type.
Variable char_string : Char -> string.

(** Modelled from the spec: the [Event] and [State] collaborators of
    game/Event.py and game/State.py (§6). [W] is the rest of the mutable
    world those calls read and write (characters, the events' own fields,
    State objects and the random module); [StateRef] is a State object. *)
Variable Event : Type.
Variable getName : Event -> string.
Variable getChance : Event -> nat.
Variable text : Event -> string.
Variable StateRef : Type.
Variable W : Type.
Variable prepare : Event -> Char -> list Char -> option StateRef -> W -> bool * W.
Variable ev_trigger : Event -> W -> (StateRef * list Event) * W.
Variable getReplacedText : StateRef -> string -> W -> string.
Variable getResultStrs : StateRef -> W -> list (Char * string).
(** [random.randint(a, b)] *)
Variable randint : Z -> Z -> W -> Z * W.

(** The fields of [Game] the engine methods read. *)
Record Game := mkGame {
  tributes : list Char;
  events : list Event
}.

Definition TextResult : Type := (string * list (Char * string))%type.

Definition chance (e : Event) : Z := Z.of_nat (getChance e).

(** The first loop of [chooseFromEvents]: [prepare] every event in order;
    prepared events of chance 0 become the default, the others are
    collected and their chances summed. *)
Fixpoint prepare_loop (self : Game) (char : Char) (state : option StateRef)
  (evs : list Event) (possibleEvents : list Event) (totalChance : Z)
  (defaultEvent : option Event) (w : W)
  : list Event * Z * option Event * W :=
  match evs with
  | [] => (possibleEvents, totalChance, defaultEvent, w)
  | event :: rest =>
      let '(ok, w) := prepare event char (tributes self) state w in
      if ok then
        if (getChance event =? 0)%nat then
          prepare_loop self char state rest possibleEvents totalChance (Some event) w
        else
          prepare_loop self char state rest (possibleEvents ++ [event])%list
            (totalChance + chance event)%Z defaultEvent w
      else prepare_loop self char state rest possibleEvents totalChance defaultEvent w
  end.

(** The second loop of [chooseFromEvents]. *)
Fixpoint select_loop (choice count : Z) (possibleEvents : list Event) : result Event :=
  match possibleEvents with
  | [] => Raise "Invalid choice when choosing from events"
  | event :: rest =>
      if ((count <=? choice) && (choice <? count + chance event))%Z then Ok event
      else select_loop choice (count + chance event)%Z rest
  end.

(** [chooseFromEvents(char, events, state)]; an absent ([None]) pool is
    passed as the empty list, which [if not events] treats alike. *)
Definition chooseFromEvents (self : Game) (char : Char) (evs : list Event)
  (state : option StateRef) (w : W) : result Event * W :=
  let evs := match evs with [] => events self | _ => evs end in
  let '(possibleEvents, totalChance, defaultEvent, w) :=
    prepare_loop self char state evs [] 0%Z None w in
  match possibleEvents with
  | [] =>
      match defaultEvent with
      | Some d => (Ok d, w)
      | None => (Raise "No events matched when choosing from events", w)
      end
  | _ =>
      let '(choice, w) := randint 0%Z (totalChance - 1)%Z w in
      (select_loop choice 0 possibleEvents, w)
  end.

(** [trigger(char, event)]. The fuel is the interpreter's recursion depth;
    running out of it is Python's [RecursionError]. *)
Fixpoint trigger (fuel : nat) (self : Game) (char : Char) (event : Event) (w : W)
  : result (list TextResult) * W :=
  match fuel with
  | O => (Raise "RecursionError: maximum recursion depth exceeded", w)
  | S fuel =>
      let '((state, subEvents), w) := ev_trigger event w in
      let textResults := [(getReplacedText state (text event) w, getResultStrs state w)] in
      match subEvents with
      | [] => (Ok textResults, w)
      | _ =>
          match chooseFromEvents self char subEvents (Some state) w with
          | (Raise m, w) => (Raise m, w)
          | (Ok sub, w) =>
              match trigger fuel self char sub w with
              | (Ok rest, w) => (Ok (textResults ++ rest)%list, w)
              | (Raise m, w) => (Raise m, w)
              end
          end
      end
  end.

Fixpoint find_tribute (ts : list Char) (charName : string) : option Char :=
  match ts with
  | [] => None
  | t :: rest => if String.eqb (char_string t) charName then Some t else find_tribute rest charName
  end.

Fixpoint find_event (es : list Event) (eventName : string) : option Event :=
  match es with
  | [] => None
  | e :: rest => if String.eqb (getName e) eventName then Some e else find_event rest eventName
  end.

(** [triggerByName(charName, eventName)] *)
Definition triggerByName (fuel : nat) (self : Game) (charName eventName : string) (w : W)
  : result (list TextResult) * W :=
  match find_tribute (tributes self) charName with
  | None => (Ok [("unable to find character named " ++ charName, [])], w)
  | Some char =>
      match find_event (events self) eventName with
      | None => (Ok [("unable to find event named " ++ eventName, [])], w)
      | Some event =>
          let '(ok, w) := prepare event char (tributes self) None w in
          if ok then trigger fuel self char event w
          else (Ok [("Trigger failed", [])], w)
      end
  end.

End Engine.


(** ** Vocabulary of the specification *)

(** Two characters agree on every field except the alliance and the two
    counters. *)
Definition same_but_alliance (c1 c2 : Character) : Prop :=
  name c1 = name c2 /\ imgSrc c1 = imgSrc c2 /\
  subj c1 = subj c2 /\ obj c1 = obj c2 /\ plur1 c1 = plur1 c2 /\
  plur2 c1 = plur2 c2 /\ flex c1 = flex c2 /\ plural c1 = plural c2 /\
  items c1 = items c2 /\ tags c1 = tags c2 /\ location c1 = location c2 /\
  alive c1 = alive c2.

(** An authored condition list is a Liveness condition when its
    discriminator is "alive" or "dead". *)
Definition is_liveness_args (args : list string) : bool :=
  match args with
  | tok :: _ => existsb (String.eqb tok) ["alive"; "dead"]
  | [] => false
  end.

(** The matching rule of an [ItemCheck]: all the tags for "item", the name
    (its first operand) for "itemeq". *)
Definition item_matches (rType : string) (itemTags : list string) (i : Item) : bool :=
  if String.eqb rType "item" then Item_hasAllTags i itemTags
  else String.eqb (Item_getName i) (hd "" itemTags).

Section EngineVocabulary.

Variable Char : Type.
Variable Event : Type.
Variable getChance : Event -> nat.
Variable text : Event -> string.
Variable StateRef : Type.
Variable W : Type.
Variable prepare : Event -> Char -> list Char -> option StateRef -> W -> bool * W.
Variable ev_trigger : Event -> W -> (StateRef * list Event) * W.
Variable getReplacedText : StateRef -> string -> W -> string.
Variable getResultStrs : StateRef -> W -> list (Char * string).
Variable randint : Z -> Z -> W -> Z * W.

(** The events of a pool that pass [prepare], in order, each [prepare] call
    seeing the world left by the previous one. *)
Fixpoint prepared_events (self : Game Char Event) (char : Char) (state : option StateRef)
  (evs : list Event) (w : W) : list Event * W :=
  match evs with
  | [] => ([], w)
  | e :: rest =>
      let '(ok, w) := prepare e char (tributes Char Event self) state w in
      let '(ps, w) := prepared_events self char state rest w in
      ((if ok then e :: ps else ps), w)
  end.

(** The total chance weight of a list of events. *)
Definition weight (l : list Event) : Z :=
  fold_right (fun e acc => (chance Event getChance e + acc)%Z) 0%Z l.

Definition nonzero (e : Event) : bool := negb (getChance e =? 0)%nat.
Definition zero (e : Event) : bool := (getChance e =? 0)%nat.

(** A trigger chain: the events triggered one after the other, each with the
    text result it renders. After an event returns sub-events, the next
    event is chosen among them by weighted selection given the same State
    object the event returned. *)
Inductive chain (self : Game Char Event) (char : Char)
  : Event -> W -> list (Event * TextResult Char) -> W -> Prop :=
| chain_leaf event w state w1 :
    ev_trigger event w = ((state, []), w1) ->
    chain self char event w
      [(event, (getReplacedText state (text event) w1, getResultStrs state w1))] w1
| chain_sub event w state subEvents w1 sub w2 rest w3 :
    ev_trigger event w = ((state, subEvents), w1) -> subEvents <> [] ->
    chooseFromEvents Char Event getChance StateRef W prepare randint
      self char subEvents (Some state) w1 = (Ok sub, w2) ->
    chain self char sub w2 rest w3 ->
    chain self char event w
      ((event, (getReplacedText state (text event) w1, getResultStrs state w1)) :: rest) w3.

End EngineVocabulary.

(** ** Further methods of Character.py *)

(** Field updates of a character object. *)
Definition set_items (c : Character) (its : list Item) : Character :=
  mkCharacter (name c) (imgSrc c) (subj c) (obj c) (plur1 c) (plur2 c) (flex c)
    (plural c) its (tags c) (location c) (alliance c) (alive c) (age c)
    (roundsSurvived c).

Definition set_tags (c : Character) (ts : list string) : Character :=
  mkCharacter (name c) (imgSrc c) (subj c) (obj c) (plur1 c) (plur2 c) (flex c)
    (plural c) (items c) ts (location c) (alliance c) (alive c) (age c)
    (roundsSurvived c).

Definition set_location (c : Character) (loc : option Zone) : Character :=
  mkCharacter (name c) (imgSrc c) (subj c) (obj c) (plur1 c) (plur2 c) (flex c)
    (plural c) (items c) (tags c) loc (alliance c) (alive c) (age c)
    (roundsSurvived c).

Definition set_alive (c : Character) (b : bool) : Character :=
  mkCharacter (name c) (imgSrc c) (subj c) (obj c) (plur1 c) (plur2 c) (flex c)
    (plural c) (items c) (tags c) (location c) (alliance c) b (age c)
    (roundsSurvived c).

Definition set_counters (c : Character) (a r : Z) : Character :=
  mkCharacter (name c) (imgSrc c) (subj c) (obj c) (plur1 c) (plur2 c) (flex c)
    (plural c) (items c) (tags c) (location c) (alliance c) (alive c) a r.

(** [tag in self.tags] *)
Definition tag_in (c : Character) (tag : string) : bool :=
  existsb (String.eqb tag) (tags c).

(** [addTag(tag)]: [if self.hasTag(tag): return; self.tags.append(tag)] *)
Definition addTag (c : Character) (tag : string) : Character :=
  if tag_in c tag then c else set_tags c (tags c ++ [tag])%list.

(** [list.remove] on a list of strings: drop the first element [==] to [x];
    [None] is the [ValueError] raised when there is none. *)
Fixpoint str_remove (x : string) (l : list string) : option (list string) :=
  match l with
  | [] => None
  | e :: rest =>
      if String.eqb e x then Some rest
      else match str_remove x rest with
           | Some rest' => Some (e :: rest')
           | None => None
           end
  end.

(** [removeTag(tag)]: [self.tags.remove(tag)] *)
Definition removeTag (c : Character) (tag : string) : result Character :=
  match str_remove tag (tags c) with
  | Some ts => Ok (set_tags c ts)
  | None => Raise "ValueError: list.remove(x): x not in list"
  end.

(** [kill()] and [revive()] *)
Definition kill (c : Character) : Character := set_alive c false.
Definition revive (c : Character) : Character := set_alive c true.

(** [incAge()]: [self.age += 1; if self.isAlive(): self.roundsSurvived += 1] *)
Definition incAge (c : Character) : Character :=
  set_counters c (age c + 1)%Z
    (if alive c then (roundsSurvived c + 1)%Z else roundsSurvived c).

(** [move(newLocation)]: [self.location = newLocation] *)
Definition move (c : Character) (newLocation : option Zone) : Character :=
  set_location c newLocation.

(** [reset()]: fresh empty items and tags, no location, a fresh empty
    alliance list, alive, age 1 and no round survived. *)
Definition reset (h : Heap) (self : CRef) : Heap :=
  match h_chars h !! self with
  | Some c =>
      let fresh := h_next h in
      mkHeap (<[self := mkCharacter (name c) (imgSrc c) (subj c) (obj c) (plur1 c)
                          (plur2 c) (flex c) (plural c) [] [] None fresh true 1%Z 0%Z]>
                (h_chars h))
             (<[fresh := []]> (h_lists h))
             (S fresh)
  | None => h
  end.

Section TakeItem.

Variable item_eq : Item -> Item -> bool.

(** [list.remove] on the item list: the first item that [is] or [==] the
    given one. *)
Fixpoint item_remove (x : Item) (l : list Item) : option (list Item) :=
  match l with
  | [] => None
  | e :: rest =>
      if (item_id e =? item_id x)%nat || item_eq e x then Some rest
      else match item_remove x rest with
           | Some rest' => Some (e :: rest')
           | None => None
           end
  end.

(** [takeItem(item)]: [self.items.remove(item)] *)
Definition takeItem (c : Character) (i : Item) : result Character :=
  match item_remove i (items c) with
  | Some its => Ok (set_items c its)
  | None => Raise "ValueError: list.remove(x): x not in list"
  end.

End TakeItem.

(** ** Game.start *)

(** Apply a method to the character object at [r]. *)
Definition update_char (h : Heap) (r : CRef) (f : Character -> Character) : Heap :=
  match h_chars h !! r with
  | Some c => mkHeap (<[r := f c]> (h_chars h)) (h_lists h) (h_next h)
  | None => h
  end.

Section GameStart.

(** The map object (game/Map.py, not in src/) and its [getStartingZone()],
    which may read and update the map. *)
Variable Mp : Type.
Variable getStartingZone : Mp -> Zone * Mp.

(** [start()]: [for tribute in self.tributes:
    tribute.move(self.map.getStartingZone()); tribute.addTag("running")] *)
Fixpoint start (h : Heap) (ts : list CRef) (m : Mp) : Heap * Mp :=
  match ts with
  | [] => (h, m)
  | t :: rest =>
      let '(z, m) := getStartingZone m in
      start (update_char h t (fun c => addTag (move c (Some z)) "running")) rest m
  end.

End GameStart.

(** ** Game.round *)

Section EngineRound.

Variable Char : Type.
Variable Event : Type.
Variable getChance : Event -> nat.
Variable text : Event -> string.
Variable StateRef : Type.
Variable W : Type.
Variable prepare : Event -> Char -> list Char -> option StateRef -> W -> bool * W.
Variable ev_trigger : Event -> W -> (StateRef * list Event) * W.
Variable getReplacedText : StateRef -> string -> W -> string.
Variable getResultStrs : StateRef -> W -> list (Char * string).
Variable randint : Z -> Z -> W -> Z * W.
(** [tribute.isAlive()], read in the current world: events may kill. *)
Variable char_isAlive : Char -> W -> bool.

(** The loop of [round()]: skip the dead, choose an event from the whole
    library for each living tribute and trigger it. *)
Fixpoint round_loop (fuel : nat) (self : Game Char Event) (ts : list Char) (w : W)
  : result (list (Char * list (TextResult Char))) * W :=
  match ts with
  | [] => (Ok [], w)
  | tribute :: rest =>
      if negb (char_isAlive tribute w) then round_loop fuel self rest w
      else
        match chooseFromEvents Char Event getChance StateRef W prepare randint
                self tribute [] None w with
        | (Raise m, w) => (Raise m, w)
        | (Ok event, w) =>
            match trigger Char Event getChance text StateRef W prepare ev_trigger
                    getReplacedText getResultStrs randint fuel self tribute event w with
            | (Raise m, w) => (Raise m, w)
            | (Ok res, w) =>
                match round_loop fuel self rest w with
                | (Ok l, w) => (Ok ((tribute, res) :: l), w)
                | (Raise m, w) => (Raise m, w)
                end
            end
        end
  end.

(** [round()] *)
Definition round (fuel : nat) (self : Game Char Event) (w : W)
  : result (list (Char * list (TextResult Char))) * W :=
  round_loop fuel self (tributes Char Event self) w.

End EngineRound.

(** ** Vocabulary of the further properties *)

(** The round counters of a character: it has survived fewer rounds than
    its age ([reset] and [__init__] start them at 0 and 1). *)
Definition counters_ok (c : Character) : Prop :=
  (0 <= roundsSurvived c < age c)%Z.

(** The conditions whose [check] writes to the State object ([setItem]). *)
Definition writes_state (c : Check) : bool :=
  match c with ItemCheck _ _ _ | CreateCheck _ _ _ _ => true | _ => false end.

(** The conditions whose [check] draws from the random module. *)
Definition draws_random (c : Check) : bool :=
  match c with CreateCheck _ _ _ _ => true | _ => false end.

(** What [Game.start] does to a tribute [c], giving [c']: it stands in a
    zone the map returned, carries the tag "running", keeps its tags free
    of duplicates, and keeps its alliance, liveness, items and name. *)
Definition started {Mp : Type} (getStartingZone : Mp -> Zone * Mp) (c c' : Character) : Prop :=
  (exists m0, location c' = Some (fst (getStartingZone m0))) /\
  tag_in c' "running" = true /\
  (NoDup (tags c) -> NoDup (tags c')) /\
  alliance c' = alliance c /\ alive c' = alive c /\ items c' = items c /\
  name c' = name c.

(** ** A small cast and event library *)

(** Items, a tribute carrying one, and a state that records item bindings
    (newest first). *)
Definition sword : Item := mkItem 1 "sword" ["weapon"; "sharp"].
Definition rope : Item := mkItem 2 "rope" ["tool"].

Definition armed_heap : Heap :=
  mkHeap (<[0 := mkCharacter "Clove" None "she" "her" "her" "hers" "herself" false
                   [rope; sword] ["career"] None 0 true 17%Z 0%Z]> ∅)
         (<[0 := []]> ∅) 1.

Definition ItemBindings : Type := list (string * Item).
Definition bind_item (k : string) (i : Item) (st : ItemBindings) : ItemBindings :=
  (k, i) :: st.

(** [random.choice] taking the first element. *)
Definition first_choice (l : list Item) (r : unit) : result Item * unit :=
  match l with
  | i :: _ => (Ok i, r)
  | [] => (Raise "IndexError: Cannot choose from an empty sequence", r)
  end.

(** An event library of four events numbered 0 to 3: "feast" (chance 3,
    whose sub-events are 1 and 2), "hide" (chance 1), "wander" (chance 0, the
    fallback) and "rest" (chance 2, never prepared). States are numbers; the
    world is the counter of a deterministic [randint]. *)
Definition toy_name (e : nat) : string :=
  match e with 0 => "feast" | 1 => "hide" | 2 => "wander" | _ => "rest" end.
Definition toy_chance (e : nat) : nat :=
  match e with 0 => 3 | 1 => 1 | 2 => 0 | _ => 2 end.
Definition toy_prepare (e : nat) (char : string) (ts : list string) (st : option nat)
  (w : Z) : bool * Z := (negb (e =? 3)%nat, w).
Definition toy_trigger (e : nat) (w : Z) : (nat * list nat) * Z :=
  ((e, match e with 0 => [1; 2] | _ => [] end), w).
Definition toy_text (st : nat) (t : string) (w : Z) : string := t.
Definition toy_results (st : nat) (w : Z) : list (string * string) := [].
Definition toy_randint (a b : Z) (w : Z) : Z * Z := ((a + w mod (b - a + 1))%Z, (w + 1)%Z).

Definition toy_game : Game string nat := mkGame string nat ["Katniss"; "Peeta"] [0; 1; 2; 3].

(** Unfolding the program's definitions inside the sections below, where
    abbreviations with the same names fix their parameters. *)
Tactic Notation "unfold_weight" := unfold weight.
Tactic Notation "unfold_weight" "in" hyp(H) := unfold weight in H.
Tactic Notation "unfold_weight" "in" "*" := unfold weight in *.
Tactic Notation "unfold_chance" := unfold chance.
Tactic Notation "unfold_chance" "in" hyp(H) := unfold chance in H.
Tactic Notation "unfold_chance" "in" "*" := unfold chance in *.
Tactic Notation "unfold_nonzero" := unfold nonzero.
Tactic Notation "unfold_nonzero" "in" hyp(H) := unfold nonzero in H.
Tactic Notation "unfold_nonzero" "in" "*" := unfold nonzero in *.
Tactic Notation "unfold_zero" := unfold zero.
Tactic Notation "unfold_zero" "in" hyp(H) := unfold zero in H.
Tactic Notation "unfold_zero" "in" "*" := unfold zero in *.
Tactic Notation "unfold_chooseFromEvents" := unfold chooseFromEvents.
Tactic Notation "unfold_chooseFromEvents" "in" hyp(H) := unfold chooseFromEvents in H.
Tactic Notation "unfold_chooseFromEvents" "in" "*" := unfold chooseFromEvents in *.
Tactic Notation "unfold_triggerByName" := unfold triggerByName.
Tactic Notation "unfold_triggerByName" "in" hyp(H) := unfold triggerByName in H.
Tactic Notation "unfold_triggerByName" "in" "*" := unfold triggerByName in *.
Tactic Notation "unfold_py_eq" := unfold py_eq.
Tactic Notation "unfold_py_eq" "in" hyp(H) := unfold py_eq in H.
Tactic Notation "unfold_py_eq" "in" "*" := unfold py_eq in *.
Tactic Notation "unfold_isAllyOf" := unfold isAllyOf.
Tactic Notation "unfold_isAllyOf" "in" hyp(H) := unfold isAllyOf in H.
Tactic Notation "unfold_isAllyOf" "in" "*" := unfold isAllyOf in *.
Tactic Notation "unfold_leaveAlliance" := unfold leaveAlliance.
Tactic Notation "unfold_leaveAlliance" "in" hyp(H) := unfold leaveAlliance in H.
Tactic Notation "unfold_leaveAlliance" "in" "*" := unfold leaveAlliance in *.

(** * Properties *)

(** ** Character queries *)

Lemma Character_string_notag py_lower py_capitalize py_isupper inflect_plural c :
  Character_string py_lower py_capitalize py_isupper inflect_plural c None = name c.
Proof. reflexivity. Qed.

Lemma first_item_with_tags_none (its : list Item) tgs :
  (forall j, In j its -> Item_hasAllTags j tgs = false) ->
  first_item_with_tags its tgs = None.
Proof.
  induction its as [|j its IH]; intros Hno; simpl; [reflexivity|].
  rewrite (Hno j (or_introl eq_refl)). apply IH. intros k Hk. apply Hno. now right.
Qed.

Lemma first_item_with_tags_app (pre post : list Item) i tgs :
  Forall (fun j => Item_hasAllTags j tgs = false) pre ->
  Item_hasAllTags i tgs = true ->
  first_item_with_tags (pre ++ i :: post) tgs = Some i.
Proof.
  induction 1 as [|j pre Hj _ IH]; intros Hi; simpl.
  - now rewrite Hi.
  - rewrite Hj. now apply IH.
Qed.

Lemma first_item_named_none (its : list Item) n :
  (forall j, In j its -> String.eqb (Item_getName j) n = false) ->
  first_item_named its n = None.
Proof.
  induction its as [|j its IH]; intros Hno; simpl; [reflexivity|].
  rewrite (Hno j (or_introl eq_refl)). apply IH. intros k Hk. apply Hno. now right.
Qed.

Lemma first_item_named_app (pre post : list Item) i n :
  Forall (fun j => String.eqb (Item_getName j) n = false) pre ->
  String.eqb (Item_getName i) n = true ->
  first_item_named (pre ++ i :: post) n = Some i.
Proof.
  induction 1 as [|j pre Hj _ IH]; intros Hi; simpl.
  - now rewrite Hi.
  - rewrite Hj. now apply IH.
Qed.

(** ** Conditions *)

Section CheckProperties.

Variable item_eq : Item -> Item -> bool.
Variable zone_eq : Zone -> Zone -> bool.
Variable State : Type.
Variable getChar : option string -> State -> CRef.
Variable setItem : string -> Item -> State -> State.
Variable getTriggersFor : CRef -> State -> Z.
Variable getTotalTriggers : State -> Z.
Variable Rng : Type.
Variable py_choice : list Item -> Rng -> result Item * Rng.

Abbreviation check := (check item_eq zone_eq State getChar setItem getTriggersFor
                     getTotalTriggers Rng py_choice).

(** C6: a [LimitCheck] with ceiling [C] passes, leaving the state alone,
    exactly when its counter ([getTriggersFor char] for "perchar",
    [getTotalTriggers] for "total") is at most [C]: the bound is inclusive. *)
Theorem LimitCheck_inclusive (C : Z) (h : Heap) (char : CRef) (st : State) (rng : Rng) :
  (exists b, check (LimitCheck "perchar" C) h char st rng = (Ok b, st, rng) /\
             (b = true <-> (getTriggersFor char st <= C)%Z)) /\
  (exists b, check (LimitCheck "total" C) h char st rng = (Ok b, st, rng) /\
             (b = true <-> (getTotalTriggers st <= C)%Z)).
Proof.
  split; eexists; split; try reflexivity; apply Z.leb_le.
Qed.

(** C7: an "item"/"itemeq" check on a character whose inventory holds no
    matching item returns false and leaves the state as it was; when the
    first matching item is [i], it returns true and the state is [st] with
    [i] bound under the check's item slot. An "itemeq" check carries its
    item name as operand. *)
Theorem ItemCheck_binds_first_match (rType itemShort : string) (itemTags : list string)
  (h : Heap) (char : CRef) (st : State) (rng : Rng) :
  rType = "item" \/ (rType = "itemeq" /\ itemTags <> []) ->
  let its := items (h_chars h !!! char) in
  ((forall j, In j its -> item_matches rType itemTags j = false) ->
   check (ItemCheck rType itemShort itemTags) h char st rng = (Ok false, st, rng)) /\
  (forall pre i post, its = (pre ++ i :: post)%list ->
   Forall (fun j => item_matches rType itemTags j = false) pre ->
   item_matches rType itemTags i = true ->
   check (ItemCheck rType itemShort itemTags) h char st rng
     = (Ok true, setItem itemShort i st, rng)).
Proof.
  intros Hr its. unfold item_matches in *. simpl.
  unfold getItemByTags, getItemByName. fold its.
  destruct Hr as [-> | [-> Hne]]; simpl.
  - split.
    + intros Hno. now rewrite first_item_with_tags_none.
    + intros pre i post Hits Hpre Hi. rewrite Hits.
      now rewrite first_item_with_tags_app.
  - destruct itemTags as [|n rest]; [congruence|]. simpl in *. split.
    + intros Hno. now rewrite first_item_named_none.
    + intros pre i post Hits Hpre Hi. rewrite Hits.
      now rewrite first_item_named_app.
Qed.

End CheckProperties.

(** ** Condition suites *)

Section SuiteProperties.

Variable Valids : Type.
Variable addCharShort : string -> Valids -> Valids.
Variable validateCharShort : string -> Valids -> result unit.
Variable addItemShortToValids : string -> Valids -> Valids.
Variable addTagNameToValids : string -> Valids -> Valids.
Variable validateLoadedItemTag : string -> Valids -> result unit.
Variable validateLoadedZoneName : string -> Valids -> result unit.
Variable validateIsInt : string -> result unit.
Variable getLoadedItemsWithTags : list string -> Valids -> result (list Item).
Variable getLoadedItemWithName : string -> Valids -> result (list Item).
Variable py_int : string -> Z.

Abbreviation CLASSES := (ALLCHECKCLASSES Valids validateCharShort addItemShortToValids
  addTagNameToValids validateLoadedItemTag validateLoadedZoneName validateIsInt
  getLoadedItemsWithTags getLoadedItemWithName py_int).

Lemma find_class_liveness tok init args v c v' :
  find_class Valids tok CLASSES = Some init -> init args v = (Ok c, v') ->
  is_AliveCheck c = existsb (String.eqb tok) ["alive"; "dead"].
Proof.
  intros Hf Hi. unfold ALLCHECKCLASSES in Hf. simpl in Hf.
  repeat match type of Hf with
  | context [String.eqb tok ?s] =>
      let E := fresh "E" in destruct (String.eqb tok s) eqn:E; simpl in Hf
  end; try discriminate;
  injection Hf as <-;
  match goal with E : String.eqb tok _ = true |- _ => apply String.eqb_eq in E; subst tok end;
  simpl;
  unfold NearbyCheck_init, AliveCheck_init, AloneCheck_init, RelationCheck_init,
    TagCheck_init, ItemCheck_init, CreateCheck_init, LocationCheck_init,
    LimitCheck_init in Hi;
  repeat case_match; simplify_eq; reflexivity.
Qed.

Lemma Suite_load_ok v (al : list (list string)) (target cs : list Check) v' :
  Suite_load Valids v CLASSES al target = (Ok cs, v') ->
  exists loaded, cs = (target ++ loaded)%list /\ length loaded = length al /\
    existsb is_AliveCheck loaded = existsb is_liveness_args al.
Proof.
  revert v target. induction al as [|args al IH]; intros v target H; cbn [Suite_load] in H.
  - inversion H; subst. exists []. rewrite app_nil_r. auto.
  - destruct args as [|tok targs]; [discriminate|].
    destruct (find_class Valids tok CLASSES) as [init|] eqn:Hf; [|cbn iota in H; discriminate].
    destruct (init (tok :: targs) v) as [[c|m] v1] eqn:Hi; cbn iota in H; [|discriminate].
    destruct (IH _ _ H) as (loaded & -> & Hlen & Hex).
    exists (c :: loaded). rewrite <- app_assoc. split; [reflexivity|].
    split; [simpl; now rewrite Hlen|].
    simpl. rewrite Hex. now rewrite (find_class_liveness _ _ _ _ _ _ Hf Hi).
Qed.

End SuiteProperties.

Section SuiteLoad.

Variable Valids : Type.
Variable addCharShort : string -> Valids -> Valids.
Variable validateCharShort : string -> Valids -> result unit.
Variable addItemShortToValids : string -> Valids -> Valids.
Variable addTagNameToValids : string -> Valids -> Valids.
Variable validateLoadedItemTag : string -> Valids -> result unit.
Variable validateLoadedZoneName : string -> Valids -> result unit.
Variable validateIsInt : string -> result unit.
Variable getLoadedItemsWithTags : list string -> Valids -> result (list Item).
Variable getLoadedItemWithName : string -> Valids -> result (list Item).
Variable py_int : string -> Z.

Variable item_eq : Item -> Item -> bool.
Variable zone_eq : Zone -> Zone -> bool.
Variable State : Type.
Variable getChar : option string -> State -> CRef.
Variable setItem : string -> Item -> State -> State.
Variable getTriggersFor : CRef -> State -> Z.
Variable getTotalTriggers : State -> Z.
Variable Rng : Type.
Variable py_choice : list Item -> Rng -> result Item * Rng.

Abbreviation load := (CheckSuite_load Valids addCharShort validateCharShort
  addItemShortToValids addTagNameToValids validateLoadedItemTag
  validateLoadedZoneName validateIsInt getLoadedItemsWithTags getLoadedItemWithName
  py_int).
Abbreviation checkAll := (checkAll item_eq zone_eq State getChar setItem
  getTriggersFor getTotalTriggers Rng py_choice).

(** C3: loading a fresh suite whose authored condition lists hold no
    Liveness condition yields the loaded conditions preceded by one
    implicit [AliveCheck "alive"], the only [AliveCheck] of the suite, which
    [checkAll] evaluates first; when a Liveness condition was authored, the
    suite holds just the authored conditions, one per list. *)
Theorem CheckSuite_load_implicit_alive (cs : string) (al : list (list string))
  (valids : Valids) (s : CheckSuite) (valids' : Valids) :
  load (CheckSuite_init cs al) valids = (Ok s, valids') ->
  (existsb is_liveness_args al = false ->
     (exists loaded, checks s = AliveCheck "alive" :: loaded /\
        length loaded = length al) /\
     List.filter is_AliveCheck (checks s) = [AliveCheck "alive"] /\
     (forall h char st rng, checkAll (checks s) h char st rng =
        match checkAll (tl (checks s)) h char st rng with
        | (Ok l, st', rng') => (Ok (isAlive h char :: l), st', rng')
        | (Raise m, st', rng') => (Raise m, st', rng')
        end)) /\
  (existsb is_liveness_args al = true -> length (checks s) = length al).
Proof.
  unfold CheckSuite_load, CheckSuite_init. cbn [checks argsLists charShort].
  destruct (Suite_load Valids _ _ al []) as [[cs'|m] v1] eqn:Hl; [|discriminate].
  destruct (Suite_load_ok _ _ _ _ _ _ _ _ _ _ _ _ _ _ _ Hl) as (loaded & Hcs & Hlen & Hex).
  simpl in Hcs. subst cs'. rewrite Hex.
  destruct (existsb is_liveness_args al) eqn:Ea; simpl; intros H; inversion H; subst; simpl.
  - split; [discriminate|]. intros _. now rewrite Hlen.
  - split; [|discriminate]. intros _. split; [eauto|]. split.
    + f_equal. clear - Hex. induction loaded as [|c l IH]; [reflexivity|].
      cbn [existsb List.filter] in *. apply orb_false_iff in Hex as [Hc Hl].
      rewrite Hc. auto.
    + intros h char st rng. simpl. reflexivity.
Qed.

(** [addNearbyCheckIfNeeded] as written: it adds a proximity check exactly
    when the suite holds no [AliveCheck]. *)
Lemma addNearbyCheckIfNeeded_spec (s : CheckSuite) (valids : Valids) :
  addNearbyCheckIfNeeded Valids validateCharShort s valids =
  if existsb is_AliveCheck (checks s) then (Ok s, valids)
  else (Ok (with_checks s (NearbyCheck "nearby" None :: checks s)), valids).
Proof.
  unfold addNearbyCheckIfNeeded. destruct (existsb is_AliveCheck (checks s)); reflexivity.
Qed.

End SuiteLoad.

(** C4: [addNearbyCheckIfNeeded] on the suite that [load] builds from no
    authored conditions (its only condition is the implicit alive check):
    no proximity condition is present, yet the suite is returned unchanged. *)
Theorem addNearbyCheckIfNeeded_skips_missing_nearby :
  let s := mkCheckSuite "a" [] [AliveCheck "alive"] in
  existsb is_NearbyCheck (checks s) = false /\
  addNearbyCheckIfNeeded unit (fun _ _ => Ok tt) s tt = (Ok s, tt).
Proof. split; reflexivity. Qed.

(** ** Character equality and hashing *)

(** C9 (as stated, refuted): two characters that agree on name, pronoun
    profile, items, tags, location and liveness are not [==] when their
    image references differ. *)
Lemma Character_eq_counterexample :
  let c1 := mkCharacter "Katniss" (Some "https://example.com/k.png")
              "she" "her" "her" "hers" "herself" false [] [] None 0 true 1 0 in
  let c2 := mkCharacter "Katniss" None
              "she" "her" "her" "hers" "herself" false [] [] None 0 true 1 0 in
  name c1 = name c2 /\ subj c1 = subj c2 /\ obj c1 = obj c2 /\
  plur1 c1 = plur1 c2 /\ plur2 c1 = plur2 c2 /\ flex c1 = flex c2 /\
  plural c1 = plural c2 /\ items c1 = items c2 /\ tags c1 = tags c2 /\
  location c1 = location c2 /\ alive c1 = alive c2 /\
  Character_eq (fun _ _ => true) (fun _ _ => true) c1 c2 = false.
Proof. repeat split. Qed.

Section EqualityProperties.

Variable item_eq : Item -> Item -> bool.
Variable zone_eq : Zone -> Zone -> bool.
Variable py_hash : HashKey -> Z.

Lemma items_eq_refl (l : list Item) : items_eq item_eq l l = true.
Proof. induction l as [|i l IH]; simpl; [reflexivity|]. now rewrite Nat.eqb_refl, IH. Qed.

Lemma tags_eq_refl (l : list string) : tags_eq l l = true.
Proof. induction l as [|t l IH]; simpl; [reflexivity|]. now rewrite String.eqb_refl, IH. Qed.

Lemma option_string_eq_true (a b : option string) : option_string_eq a b = true -> a = b.
Proof.
  destruct a, b; simpl; try discriminate; [|reflexivity].
  now intros ->%String.eqb_eq.
Qed.

(** C9 (amended): [==] on characters reads the name, the image reference,
    the pronoun profile, the items, the tags, the location and the liveness
    flag and nothing else, so characters that differ only in their alliance
    (or their age counters) compare alike; [hash] reads the name, the image
    reference and the pronoun profile only, so [==] characters hash alike;
    and when zone equality is reflexive, a character is [==] to any
    character that differs from it only in its alliance. *)
Theorem Character_eq_hash_fields (c1 c1' c2 c2' : Character) :
  same_but_alliance c1 c1' -> same_but_alliance c2 c2' ->
  Character_eq item_eq zone_eq c1 c2 = Character_eq item_eq zone_eq c1' c2' /\
  Character_hash py_hash c1 = Character_hash py_hash c1' /\
  (Character_eq item_eq zone_eq c1 c2 = true ->
   Character_hash py_hash c1 = Character_hash py_hash c2) /\
  ((forall z, zone_eq z z = true) -> Character_eq item_eq zone_eq c1 c1' = true).
Proof.
  destruct c1, c1', c2, c2'; unfold same_but_alliance; simpl.
  intros (?&?&?&?&?&?&?&?&?&?&?&?) (?&?&?&?&?&?&?&?&?&?&?&?); subst.
  split; [reflexivity|]. split; [reflexivity|]. split.
  - unfold Character_eq, Character_hash; simpl.
    intros Heq. repeat apply andb_prop in Heq as [? Heq].
    repeat match goal with
    | H : String.eqb _ _ = true |- _ => apply String.eqb_eq in H
    | H : Bool.eqb _ _ = true |- _ => apply eqb_prop in H
    | H : option_string_eq _ _ = true |- _ => apply option_string_eq_true in H
    end; subst. reflexivity.
  - intros Hz. unfold Character_eq; simpl.
    rewrite !String.eqb_refl, items_eq_refl, tags_eq_refl, !eqb_reflx.
    destruct imgSrc1 as [s|]; simpl; [rewrite String.eqb_refl|];
    (destruct location1 as [z|]; simpl; [rewrite Hz|]); reflexivity.
Qed.

End EqualityProperties.

(** ** The event resolution engine *)

Section EngineProperties.

Variable Char : Type.
Variable char_string : Char -> string.
Variable Event : Type.
Variable getName : Event -> string.
Variable getChance : Event -> nat.
Variable text : Event -> string.
Variable StateRef : Type.
Variable W : Type.
Variable prepare : Event -> Char -> list Char -> option StateRef -> W -> bool * W.
Variable ev_trigger : Event -> W -> (StateRef * list Event) * W.
Variable getReplacedText : StateRef -> string -> W -> string.
Variable getResultStrs : StateRef -> W -> list (Char * string).
Variable randint : Z -> Z -> W -> Z * W.

Abbreviation Game := (Game Char Event).
Abbreviation tributes := (tributes Char Event).
Abbreviation events := (events Char Event).
Abbreviation chance := (chance Event getChance).
Abbreviation weight := (weight Event getChance).
Abbreviation nonzero := (nonzero Event getChance).
Abbreviation zero := (zero Event getChance).
Abbreviation prepared_events := (prepared_events Char Event StateRef W prepare).
Abbreviation prepare_loop := (prepare_loop Char Event getChance StateRef W prepare).
Abbreviation select_loop := (select_loop Event getChance).
Abbreviation chooseFromEvents :=
  (chooseFromEvents Char Event getChance StateRef W prepare randint).

Lemma prepare_loop_spec (self : Game) (char : Char) (st : option StateRef)
  (evs : list Event) possibleEvents totalChance defaultEvent (w : W) :
  let '(ps, w') := prepared_events self char st evs w in
  prepare_loop self char st evs possibleEvents totalChance defaultEvent w =
  ((possibleEvents ++ List.filter nonzero ps)%list,
   (totalChance + weight (List.filter nonzero ps))%Z,
   match last (List.filter zero ps) with Some d => Some d | None => defaultEvent end,
   w').
Proof.
  revert possibleEvents totalChance defaultEvent w.
  induction evs as [|e rest IH]; intros poss tot dflt w; simpl.
  - rewrite app_nil_r. unfold_weight; simpl. now rewrite Z.add_0_r.
  - destruct (prepare e char (tributes self) st w) as [ok w1].
    specialize (IH poss tot dflt w1) as IH0.
    destruct (prepared_events self char st rest w1) as [ps w2] eqn:Hps.
    destruct ok.
    + unfold_nonzero in *; unfold_zero in *.
      destruct (getChance e =? 0)%nat eqn:Ec; simpl.
      * specialize (IH poss tot (Some e) w1). rewrite Hps in IH. rewrite IH.
        rewrite Ec; simpl. destruct (last (List.filter _ ps)) eqn:El.
        -- f_equal. rewrite last_cons, El. reflexivity.
        -- f_equal. rewrite last_cons, El. reflexivity.
      * specialize (IH (poss ++ [e])%list (tot + chance e)%Z dflt w1).
        rewrite Hps in IH. rewrite IH. rewrite Ec; simpl.
        rewrite <- app_assoc. f_equal. f_equal. f_equal.
        unfold_weight; simpl. lia.
    + exact IH0.
Qed.

Lemma weight_app (l1 l2 : list Event) : weight (l1 ++ l2)%list = (weight l1 + weight l2)%Z.
Proof.
  induction l1 as [|e l1 IH]; unfold_weight in *; simpl; [reflexivity|].
  rewrite IH. lia.
Qed.

Lemma weight_nonneg (l : list Event) : (0 <= weight l)%Z.
Proof.
  induction l as [|e l IH]; unfold_weight in *; unfold_chance in *; simpl; lia.
Qed.

Lemma select_loop_spec (l : list Event) (count choice : Z) :
  (count <= choice < count + weight l)%Z ->
  exists pre e post, l = (pre ++ e :: post)%list /\
    (count + weight pre <= choice < count + weight pre + chance e)%Z /\
    select_loop choice count l = Ok e.
Proof.
  revert count. induction l as [|e rest IH]; intros count Hc.
  - unfold_weight in Hc; simpl in Hc. lia.
  - unfold_weight in Hc; simpl in Hc. fold (weight rest) in Hc. simpl.
    destruct ((count <=? choice) && (choice <? count + chance e))%Z eqn:Ein.
    + exists [], e, rest. unfold_weight; simpl. split; [reflexivity|].
      apply andb_prop in Ein as [H1 H2]. apply Z.leb_le in H1. apply Z.ltb_lt in H2.
      split; [lia | reflexivity].
    + assert (count + chance e <= choice)%Z.
      { apply andb_false_iff in Ein as [E|E].
        - apply Z.leb_gt in E. lia.
        - apply Z.ltb_ge in E. lia. }
      destruct (IH (count + chance e)%Z) as (pre & e' & post & -> & Hr & Hs); [lia|].
      exists (e :: pre), e', post. split; [reflexivity|].
      unfold_weight in *; simpl in *. split; [lia | exact Hs].
Qed.

Lemma filter_nonzero_chance (l : list Event) e :
  In e (List.filter nonzero l) -> getChance e <> 0%nat.
Proof.
  intros Hin. apply filter_In in Hin as [_ Hz]. unfold_nonzero in Hz.
  destruct (getChance e =? 0)%nat eqn:E; [discriminate|]. now apply Nat.eqb_neq.
Qed.

Lemma chooseFromEvents_select (self : Game) (char : Char) (evs : list Event)
  (st : option StateRef) (w : W) (prepared : list Event) (w1 : W) :
  (forall a b w, (a <= b)%Z -> (a <= fst (randint a b w) <= b)%Z) ->
  prepared_events self char st (match evs with [] => events self | _ => evs end) w
    = (prepared, w1) ->
  List.filter nonzero prepared <> [] ->
  let cands := List.filter nonzero prepared in
  exists choice w2 pre e post,
    randint 0 (weight cands - 1) w1 = (choice, w2) /\
    (0 <= choice < weight cands)%Z /\
    cands = (pre ++ e :: post)%list /\
    (weight pre <= choice < weight pre + chance e)%Z /\
    getChance e <> 0%nat /\
    chooseFromEvents self char evs st w = (Ok e, w2).
Proof.
  intros Hrand Hprep Hne cands.
  pose proof (prepare_loop_spec self char st
                (match evs with [] => events self | _ => evs end) [] 0%Z None w) as Hl.
  rewrite Hprep in Hl.
  assert (Hw : (1 <= weight cands)%Z).
  { subst cands. destruct (List.filter nonzero prepared) as [|c cs] eqn:Ec; [congruence|].
    assert (getChance c <> 0%nat) by (apply (filter_nonzero_chance prepared); rewrite Ec; now left).
    pose proof (weight_nonneg cs). unfold_weight in *; unfold_chance in *; simpl. lia. }
  destruct (randint 0 (weight cands - 1) w1) as [choice w2] eqn:Er.
  pose proof (Hrand 0%Z (weight cands - 1)%Z w1 ltac:(lia)) as Hc. rewrite Er in Hc; simpl in Hc.
  destruct (select_loop_spec cands 0 choice ltac:(lia)) as (pre & e & post & Hsplit & Hin & Hsel).
  exists choice, w2, pre, e, post. split; [reflexivity|]. split; [lia|].
  split; [exact Hsplit|]. split; [lia|]. split.
  { apply (filter_nonzero_chance prepared). fold cands. rewrite Hsplit.
    apply in_app_iff. right. now left. }
  unfold_chooseFromEvents. rewrite Hl. simpl app. subst cands.
  destruct (List.filter nonzero prepared) as [|c cs]; [congruence|].
  rewrite Z.add_0_l. rewrite Er. now rewrite Hsel.
Qed.

(** C1: when some event of the pool passes [prepare] with a nonzero chance,
    [chooseFromEvents] draws [randint(0, T - 1)], [T] the total chance of
    those candidates (zero-chance events are not counted), and returns the
    candidate whose interval [[cumulativeBefore, cumulativeBefore + chance)]
    holds the draw; that event has a nonzero chance, so a zero-chance
    fallback is never returned. [randint(a, b)] is taken to return a number
    in [[a, b]], as Python documents. *)
Theorem chooseFromEvents_weighted (self : Game) (char : Char) (evs : list Event)
  (st : option StateRef) (w : W) (prepared : list Event) (w1 : W) :
  (forall a b w, (a <= b)%Z -> (a <= fst (randint a b w) <= b)%Z) ->
  prepared_events self char st (match evs with [] => events self | _ => evs end) w
    = (prepared, w1) ->
  List.filter nonzero prepared <> [] ->
  let cands := List.filter nonzero prepared in
  exists choice w2 pre e post,
    randint 0 (weight cands - 1) w1 = (choice, w2) /\
    (0 <= choice < weight cands)%Z /\
    cands = (pre ++ e :: post)%list /\
    (weight pre <= choice < weight pre + chance e)%Z /\
    getChance e <> 0%nat /\
    chooseFromEvents self char evs st w = (Ok e, w2).
Proof. exact (chooseFromEvents_select self char evs st w prepared w1). Qed.

(** C5: [chooseFromEvents] raises exactly when no event of the pool (the
    library when no pool is given) passes [prepare] with a nonzero chance
    and none passes it with chance 0; it then raises the no-applicable-event
    error after the single pass of [prepare] calls, drawing nothing and
    trying nothing again. When only zero-chance events pass, the last of
    them, the fallback, is returned. *)
Theorem chooseFromEvents_no_applicable_event (self : Game) (char : Char)
  (evs : list Event) (st : option StateRef) (w : W) (prepared : list Event) (w1 : W) :
  (forall a b w, (a <= b)%Z -> (a <= fst (randint a b w) <= b)%Z) ->
  prepared_events self char st (match evs with [] => events self | _ => evs end) w
    = (prepared, w1) ->
  ((exists m w', chooseFromEvents self char evs st w = (Raise m, w')) <->
   (List.filter nonzero prepared = [] /\ List.filter zero prepared = [])) /\
  (List.filter nonzero prepared = [] -> List.filter zero prepared = [] ->
   chooseFromEvents self char evs st w
     = (Raise "No events matched when choosing from events", w1)) /\
  (List.filter nonzero prepared = [] ->
   forall d, last (List.filter zero prepared) = Some d ->
   chooseFromEvents self char evs st w = (Ok d, w1)).
Proof.
  intros Hrand Hprep.
  pose proof (prepare_loop_spec self char st
                (match evs with [] => events self | _ => evs end) [] 0%Z None w) as Hl.
  rewrite Hprep in Hl.
  assert (Hraise : List.filter nonzero prepared = [] -> List.filter zero prepared = [] ->
            chooseFromEvents self char evs st w
              = (Raise "No events matched when choosing from events", w1)).
  { intros Hn Hz. unfold_chooseFromEvents. rewrite Hl, Hn, Hz. reflexivity. }
  split; [split|split].
  - intros (m & w' & Hr).
    destruct (List.filter nonzero prepared) as [|c cs] eqn:Ec.
    + split; [reflexivity|].
      destruct (List.filter zero prepared) as [|z zs] eqn:Ez; [reflexivity|].
      exfalso. unfold_chooseFromEvents in Hr. rewrite Hl in Hr. simpl in Hr.
      destruct (last (z :: zs)) eqn:El; [discriminate|].
      rewrite last_None in El. discriminate.
    + exfalso.
      destruct (chooseFromEvents_select self char evs st w prepared w1 Hrand Hprep)
        as (choice & w2 & pre & e & post & _ & _ & _ & _ & _ & Hok); [congruence|].
      congruence.
  - intros [Hn Hz]. eexists _, _. exact (Hraise Hn Hz).
  - exact Hraise.
  - intros Hn d Hd. unfold_chooseFromEvents. rewrite Hl, Hn, Hd. reflexivity.
Qed.

Abbreviation trigger := (trigger Char Event getChance text StateRef W prepare ev_trigger
  getReplacedText getResultStrs randint).
Abbreviation chain := (chain Char Event getChance text StateRef W prepare ev_trigger
  getReplacedText getResultStrs randint).

(** C2: a trigger chain of [N] events, run within the recursion depth,
    makes [trigger] return exactly [N] text results: those of the chain's
    events in chain order, the top-level event's first. Conversely every
    successful [trigger] is such a chain, where each sub-event is chosen
    from the sub-event list just returned, given the same State object. *)
Theorem trigger_chain_results (self : Game) (char : Char) (event : Event) (w : W) :
  (forall steps w' fuel, chain self char event w steps w' ->
     (length steps <= fuel)%nat ->
     trigger fuel self char event w = (Ok (map snd steps), w') /\
     length (map snd steps) = length steps /\
     hd_error (map fst steps) = Some event) /\
  (forall fuel out w', trigger fuel self char event w = (Ok out, w') ->
     exists steps, chain self char event w steps w' /\ out = map snd steps).
Proof.
  split.
  - intros steps w' fuel Hc. revert fuel.
    induction Hc as [event w state w1 Ht | event w state subEvents w1 sub w2 rest w3 Ht Hne Hch Hc IH];
      intros fuel Hf; destruct fuel as [|fuel]; simpl in Hf; try lia.
    + simpl. rewrite Ht. auto.
    + destruct (IH fuel ltac:(lia)) as [Hrec _].
      simpl. rewrite Ht. destruct subEvents as [|s ss]; [congruence|].
      rewrite Hch, Hrec. split; [reflexivity|]. split; [now rewrite length_map|reflexivity].
  - intros fuel. revert event w.
    induction fuel as [|fuel IH]; intros event w out w' Htr; simpl in Htr; [discriminate|].
    destruct (ev_trigger event w) as [[state subEvents] w1] eqn:Ht.
    destruct subEvents as [|s ss].
    + injection Htr as <- <-. eexists. split; [eapply chain_leaf; exact Ht|reflexivity].
    + destruct (chooseFromEvents self char (s :: ss) (Some state) w1) as [[sub|m] w2] eqn:Hch;
        [|discriminate].
      destruct (trigger fuel self char sub w2) as [[rest|m] w3] eqn:Hrec; [|discriminate].
      injection Htr as <- <-.
      destruct (IH sub w2 rest w3 Hrec) as (steps & Hc & ->).
      eexists. split.
      * eapply chain_sub; [exact Ht | discriminate | exact Hch | exact Hc].
      * reflexivity.
Qed.

Abbreviation triggerByName := (triggerByName Char char_string Event getName getChance
  text StateRef W prepare ev_trigger getReplacedText getResultStrs randint).

Lemma find_tribute_none (ts : list Char) (n : string) :
  (forall t, In t ts -> char_string t <> n) -> find_tribute Char char_string ts n = None.
Proof.
  induction ts as [|t ts IH]; intros Hno; simpl; [reflexivity|].
  destruct (String.eqb_spec (char_string t) n) as [E|_].
  - exfalso. exact (Hno t (or_introl eq_refl) E).
  - apply IH. intros u Hu. apply Hno. now right.
Qed.

Lemma find_tribute_first (pre post : list Char) (c : Char) (n : string) :
  Forall (fun t => char_string t <> n) pre -> char_string c = n ->
  find_tribute Char char_string (pre ++ c :: post) n = Some c.
Proof.
  induction 1 as [|t pre Ht _ IH]; intros Hc; simpl.
  - now rewrite Hc, String.eqb_refl.
  - destruct (String.eqb_spec (char_string t) n); [contradiction|]. now apply IH.
Qed.

Lemma find_event_none (es : list Event) (n : string) :
  (forall e, In e es -> getName e <> n) -> find_event Event getName es n = None.
Proof.
  induction es as [|e es IH]; intros Hno; simpl; [reflexivity|].
  destruct (String.eqb_spec (getName e) n) as [E|_].
  - exfalso. exact (Hno e (or_introl eq_refl) E).
  - apply IH. intros u Hu. apply Hno. now right.
Qed.

Lemma find_event_first (pre post : list Event) (e : Event) (n : string) :
  Forall (fun x => getName x <> n) pre -> getName e = n ->
  find_event Event getName (pre ++ e :: post) n = Some e.
Proof.
  induction 1 as [|x pre Hx _ IH]; intros He; simpl.
  - now rewrite He, String.eqb_refl.
  - destruct (String.eqb_spec (getName x) n); [contradiction|]. now apply IH.
Qed.

(** C10: [triggerByName] takes the first character of the cast whose
    [string()] is the given name and the first event of the library with
    the given name. With no such character, or no such event, it returns a
    one-element error text with no result strings; when [prepare] of the
    event fails, it returns [[("Trigger failed", [])]]; only when it
    succeeds does it call [trigger]. It never raises on its own. *)
Theorem triggerByName_cases (fuel : nat) (self : Game) (charName eventName : string) (w : W) :
  ((forall t, In t (tributes self) -> char_string t <> charName) ->
   triggerByName fuel self charName eventName w
     = (Ok [("unable to find character named " ++ charName, [])], w)) /\
  (forall pre char post, tributes self = (pre ++ char :: post)%list ->
   Forall (fun t => char_string t <> charName) pre -> char_string char = charName ->
   ((forall e, In e (events self) -> getName e <> eventName) ->
    triggerByName fuel self charName eventName w
      = (Ok [("unable to find event named " ++ eventName, [])], w)) /\
   (forall epre event epost, events self = (epre ++ event :: epost)%list ->
    Forall (fun e => getName e <> eventName) epre -> getName event = eventName ->
    forall ok w1, prepare event char (tributes self) None w = (ok, w1) ->
    triggerByName fuel self charName eventName w
      = if ok then trigger fuel self char event w1 else (Ok [("Trigger failed", [])], w1))).
Proof.
  unfold_triggerByName. split.
  - intros Hno. now rewrite find_tribute_none.
  - intros pre char post Ht Hpre Hc. rewrite Ht, (find_tribute_first _ _ _ _ Hpre Hc), <- Ht.
    split.
    + intros Hno. now rewrite find_event_none.
    + intros epre event epost He Hepre Hn ok w1 Hp.
      rewrite He, (find_event_first _ _ _ _ Hepre Hn), Hp. reflexivity.
Qed.

End EngineProperties.

(** ** Alliances *)

Lemma list_of_lookup (h : Heap) L ms : h_lists h !! L = Some ms -> list_of h L = ms.
Proof. unfold list_of. now intros ->. Qed.

Lemma alone_not_member (h : Heap) r c L ms :
  alliance_inv h -> h_chars h !! r = Some c -> isAlone h r = true ->
  h_lists h !! L = Some ms -> r ∉ ms.
Proof.
  intros Hinv Hr Ha HL Hin.
  assert (Hne : ms <> []) by (intros ->; inversion Hin).
  pose proof (Hinv L ms HL Hne r c Hr) as [_ H2]. specialize (H2 Hin).
  unfold isAlone in Ha. rewrite Hr, H2, (list_of_lookup _ _ _ HL) in Ha.
  apply Nat.eqb_eq in Ha. destruct ms; [congruence|discriminate].
Qed.

Section AllianceProperties.

Variable item_eq : Item -> Item -> bool.
Variable zone_eq : Zone -> Zone -> bool.

Abbreviation isAllyOf := (isAllyOf item_eq zone_eq).
Abbreviation leaveAlliance := (leaveAlliance item_eq zone_eq).
Abbreviation py_eq := (py_eq item_eq zone_eq).
Abbreviation py_remove := (py_remove item_eq zone_eq).

Lemma py_eq_refl h r : py_eq h r r = true.
Proof. unfold_py_eq. now rewrite Nat.eqb_refl. Qed.

Lemma existsb_py_eq_in h (l : list CRef) m : m ∈ l -> existsb (fun e => py_eq h e m) l = true.
Proof.
  intros Hm. apply existsb_exists. exists m. split; [now apply list_elem_of_In|].
  apply py_eq_refl.
Qed.

(** [joinAlliance] by a character that is alone, into a list that is an
    alliance or an empty list no other character refers to. *)
Lemma joinAlliance_preserves (h : Heap) (r : CRef) (c : Character) (L : LRef)
  (members : list CRef) :
  heap_wf h -> alliance_inv h ->
  h_chars h !! r = Some c -> h_lists h !! L = Some members ->
  isAlone h r = true ->
  map_Forall (fun r' c' => r' <> r -> alliance c' = L -> r' ∈ members) (h_chars h) ->
  let h' := joinAlliance h r L in
  heap_wf h' /\ alliance_inv h' /\ list_of h' L = (members ++ [r])%list /\
  (forall m, m ∈ members -> isAllyOf h' r m = true /\ isAllyOf h' m r = true) /\
  (forall m, m ∈ list_of h' L -> isAlone h' m = false).
Proof.
  intros (Hw1 & Hw2 & Hw3) Hinv Hr HL Ha Hothers h'.
  assert (HrL : r ∉ members) by (eapply alone_not_member; eauto).
  assert (Hchars : h_chars h' = <[r := set_alliance c L]> (h_chars h)).
  { subst h'. unfold joinAlliance. now rewrite Hr. }
  assert (Hlists : h_lists h' = <[L := (members ++ [r])%list]> (h_lists h)).
  { subst h'. unfold joinAlliance. now rewrite Hr, (list_of_lookup _ _ _ HL). }
  assert (HlL : list_of h' L = (members ++ [r])%list).
  { unfold list_of. now rewrite Hlists, lookup_insert_eq. }
  assert (Hvalid : forall x, is_Some (h_chars h !! x) -> is_Some (h_chars h' !! x)).
  { intros x Hx. rewrite Hchars, lookup_insert_is_Some'. now right. }
  assert (Hmem : forall m, m ∈ members -> exists cm, h_chars h' !! m = Some cm /\ alliance cm = L).
  { intros m Hm. destruct (Hw2 L members HL) as [_ Hv].
    eapply Forall_forall in Hv as [cm Hcm]; [|exact Hm].
    assert (m <> r) by (intros ->; contradiction).
    exists cm. rewrite Hchars, lookup_insert_ne by congruence. split; [exact Hcm|].
    assert (members <> []) by (intros ->; inversion Hm).
    now apply (Hinv L members HL ltac:(assumption) m cm Hcm). }
  assert (Hrc : h_chars h' !! r = Some (set_alliance c L)).
  { rewrite Hchars. apply lookup_insert_eq. }
  split; [|split; [|split; [exact HlL|split]]].
  - (* well-formedness *)
    split; [|split].
    + intros r' c' Hr'. rewrite Hchars in Hr'. rewrite Hlists, lookup_insert_is_Some'.
      apply lookup_insert_Some in Hr' as [[<- <-]|[_ Hr']]; [now left|].
      right. exact (Hw1 r' c' Hr').
    + intros L' ms HL'. rewrite Hlists in HL'.
      apply lookup_insert_Some in HL' as [[<- <-]|[_ HL']].
      * destruct (Hw2 L members HL) as [Hnd Hv]. split.
        -- apply NoDup_app. split; [exact Hnd|]. split; [|apply NoDup_singleton].
           intros x Hx Hx'. apply list_elem_of_singleton in Hx'. subst. contradiction.
        -- apply Forall_app. split.
           ++ eapply Forall_impl; [exact Hv|]. exact Hvalid.
           ++ constructor; [rewrite Hrc; eauto|constructor].
      * destruct (Hw2 L' ms HL') as [Hnd Hv]. split; [exact Hnd|].
        eapply Forall_impl; [exact Hv|]. exact Hvalid.
    + intros L' ms HL'. rewrite Hlists in HL'. simpl.
      assert (h_next h' = h_next h) as -> by (subst h'; unfold joinAlliance; now rewrite Hr).
      apply lookup_insert_Some in HL' as [[<- _]|[_ HL']].
      * exact (Hw3 L members HL).
      * exact (Hw3 L' ms HL').
  - (* the alliance invariant *)
    intros L' ms HL' Hne r' c' Hr'. rewrite Hlists in HL'. rewrite Hchars in Hr'.
    apply lookup_insert_Some in HL' as [[<- <-]|[HneL HL']].
    + rewrite elem_of_app, list_elem_of_singleton.
      apply lookup_insert_Some in Hr' as [[<- <-]|[Hner Hr']].
      * simpl. split; [now right|reflexivity].
      * split.
        -- intros Hal. left. exact (Hothers r' c' Hr' (not_eq_sym Hner) Hal).
        -- intros [Hm | ->]; [|contradiction].
           assert (members <> []) by (intros ->; inversion Hm).
           now apply (Hinv L members HL ltac:(assumption) r' c' Hr').
    + apply lookup_insert_Some in Hr' as [[<- <-]|[Hner Hr']].
      * simpl. split; [intros ->; contradiction|].
        intros Hin. exfalso. eapply (alone_not_member h r c L' ms); eauto.
      * exact (Hinv L' ms HL' Hne r' c' Hr').
  - (* the new member and the old members are allies of each other *)
    intros m Hm. split.
    + unfold_isAllyOf. rewrite Hrc. simpl. rewrite HlL.
      apply existsb_py_eq_in. apply elem_of_app. now left.
    + destruct (Hmem m Hm) as (cm & Hcm & Hal).
      unfold_isAllyOf. rewrite Hcm, Hal, HlL.
      apply existsb_py_eq_in. apply elem_of_app. right. now apply list_elem_of_singleton.
  - (* and none of them is alone *)
    intros m Hm. rewrite HlL in Hm. apply elem_of_app in Hm as [Hm|Hm].
    + destruct (Hmem m Hm) as (cm & Hcm & Hal).
      unfold isAlone. rewrite Hcm, Hal, HlL, length_app. simpl.
      apply Nat.eqb_neq. lia.
    + apply list_elem_of_singleton in Hm as ->.
      unfold isAlone. rewrite Hrc. simpl. rewrite HlL, length_app. simpl.
      apply Nat.eqb_neq. lia.
Qed.

Lemma py_remove_spec (h : Heap) (r : CRef) (l : list CRef) :
  r ∈ l -> Forall (fun e => e <> r -> py_eq h e r = false) l ->
  exists pre post, l = (pre ++ r :: post)%list /\ (r ∉ pre) /\
    py_remove h r l = Some (pre ++ post)%list.
Proof.
  induction l as [|e rest IH]; intros Hin Hf; [inversion Hin|].
  inversion Hf as [|? ? He Hrest]; subst. simpl.
  destruct (decide (e = r)) as [->|Hne].
  - exists [], rest. rewrite py_eq_refl. split; [reflexivity|]. split; [|reflexivity].
    intros Hx; inversion Hx.
  - rewrite (He Hne). apply elem_of_cons in Hin as [->|Hin]; [congruence|].
    destruct (IH Hin Hrest) as (pre & post & -> & Hpre & ->).
    exists (e :: pre), post. split; [reflexivity|]. split; [|reflexivity].
    rewrite elem_of_cons. intros [->|?]; [congruence|contradiction].
Qed.

(** [leaveAlliance] by a character none of whose fellow members is [==]
    to it. *)
Lemma leaveAlliance_preserves (h : Heap) (r : CRef) (c : Character) :
  heap_wf h -> alliance_inv h -> h_chars h !! r = Some c ->
  map_Forall (fun m cm => m ∈ list_of h (alliance c) -> m <> r ->
                Character_eq item_eq zone_eq cm c = false) (h_chars h) ->
  exists h', leaveAlliance h r = Ok h' /\ heap_wf h' /\ alliance_inv h' /\
    exists c', h_chars h' !! r = Some c' /\ list_of h' (alliance c') = [] /\
      (isAlone h r = false ->
         alliance c' <> alliance c /\ (r ∉ list_of h' (alliance c)) /\
         forall m, m <> r ->
           (m ∈ list_of h' (alliance c) <-> m ∈ list_of h (alliance c))).
Proof.
  intros Hwf Hinv Hr Hdistinct. pose proof Hwf as (Hw1 & Hw2 & Hw3).
  unfold_leaveAlliance. rewrite Hr.
  destruct (isAlone h r) eqn:Ha.
  { exists h. split; [reflexivity|]. split; [exact Hwf|]. split; [exact Hinv|].
    exists c. split; [exact Hr|]. split; [|discriminate].
    unfold isAlone in Ha. rewrite Hr in Ha. apply Nat.eqb_eq in Ha.
    now destruct (list_of h (alliance c)). }
  set (L := alliance c) in *. set (F := h_next h).
  destruct (Hw1 r c Hr) as [members HL]. fold L in HL.
  pose proof (list_of_lookup _ _ _ HL) as HlL.
  assert (Hne : members <> []).
  { intros ->. unfold isAlone in Ha. rewrite Hr in Ha. fold L in Ha. now rewrite HlL in Ha. }
  assert (Hrin : r ∈ members) by (now apply (Hinv L members HL Hne r c Hr)).
  destruct (Hw2 L members HL) as [Hnd Hv].
  assert (Hf : Forall (fun e => e <> r -> py_eq h e r = false) members).
  { apply Forall_forall. intros e He Hner.
    eapply Forall_forall in Hv as [ce Hce]; [|exact He].
    unfold_py_eq. rewrite Hce, Hr. apply orb_false_iff. split.
    - now apply Nat.eqb_neq.
    - apply (Hdistinct e ce Hce); [now rewrite HlL|exact Hner]. }
  destruct (py_remove_spec h r members Hrin Hf) as (pre & post & Hsplit & Hpre & Hrm).
  rewrite HlL, Hrm.
  assert (HFL : F <> L) by (pose proof (Hw3 L members HL); simpl in *; lia).
  assert (Hrpost : (r ∉ post) /\ NoDup (pre ++ post)%list).
  { rewrite Hsplit in Hnd. apply NoDup_app in Hnd as (H1 & H2 & H3).
    apply NoDup_cons in H3 as [H3 H4]. split; [exact H3|].
    apply NoDup_app. split; [exact H1|]. split; [|exact H4].
    intros x Hx Hx'. apply (H2 x Hx). now apply elem_of_cons; right. }
  destruct Hrpost as [Hrpost Hnd'].
  assert (Hrout : ~ (r ∈ (pre ++ post)%list)) by (rewrite elem_of_app; tauto).
  assert (Hrest : forall m, m <> r -> (m ∈ (pre ++ post)%list <-> m ∈ members)).
  { intros m Hm. rewrite Hsplit, !elem_of_app, elem_of_cons. intuition congruence. }
  set (chars' := <[r := set_alliance c F]> (h_chars h)).
  set (lists' := <[F := []]> (<[L := (pre ++ post)%list]> (h_lists h))).
  assert (HlistsL : lists' !! L = Some (pre ++ post)%list).
  { subst lists'. rewrite lookup_insert_ne by congruence. apply lookup_insert_eq. }
  assert (HlistsF : lists' !! F = Some []) by apply lookup_insert_eq.
  assert (Hvalid : forall x, is_Some (h_chars h !! x) -> is_Some (chars' !! x)).
  { intros x Hx. subst chars'. rewrite lookup_insert_is_Some'. now right. }
  exists (mkHeap chars' lists' (S F)). split; [reflexivity|].
  split; [|split].
  - (* well-formedness *)
    split; [|split]; simpl.
    + intros r' c' Hr'. subst chars'.
      apply lookup_insert_Some in Hr' as [[<- <-]|[_ Hr']]; simpl; [now rewrite HlistsF|].
      subst lists'. rewrite !lookup_insert_is_Some'. right; right. exact (Hw1 r' c' Hr').
    + intros L' ms HL'. subst lists'.
      apply lookup_insert_Some in HL' as [[_ <-]|[_ HL']]; [split; constructor|].
      apply lookup_insert_Some in HL' as [[_ <-]|[_ HL']].
      * split; [exact Hnd'|]. apply Forall_forall. intros x Hx.
        apply Hvalid. rewrite Forall_forall in Hv. apply Hv.
        rewrite Hsplit, elem_of_app, elem_of_cons.
        apply elem_of_app in Hx. tauto.
      * destruct (Hw2 L' ms HL') as [Hnd2 Hv2]. split; [exact Hnd2|].
        eapply Forall_impl; [exact Hv2|]. exact Hvalid.
    + intros L' ms HL'. subst lists'.
      apply lookup_insert_Some in HL' as [[<- _]|[_ HL']]; [lia|].
      apply lookup_insert_Some in HL' as [[<- _]|[_ HL']].
      * pose proof (Hw3 L members HL). simpl in *. lia.
      * pose proof (Hw3 L' ms HL'). simpl in *. lia.
  - (* the alliance invariant *)
    intros L' ms HL' Hms r' c' Hr'. simpl in HL', Hr'. subst lists' chars'.
    apply lookup_insert_Some in HL' as [[<- <-]|[HneF HL']]; [congruence|].
    apply lookup_insert_Some in HL' as [[<- <-]|[HneL HL']].
    + apply lookup_insert_Some in Hr' as [[<- <-]|[Hner Hr']].
      * simpl. split; [congruence|contradiction].
      * rewrite (Hrest r' (not_eq_sym Hner)). exact (Hinv L members HL Hne r' c' Hr').
    + apply lookup_insert_Some in Hr' as [[<- <-]|[Hner Hr']].
      * simpl. split; [congruence|]. intros Hin.
        apply (Hinv L' ms HL' Hms r c Hr) in Hin.
        assert (alliance c = L) by reflexivity. congruence.
      * exact (Hinv L' ms HL' Hms r' c' Hr').
  - exists (set_alliance c F). split; [subst chars'; apply lookup_insert_eq|].
    simpl. unfold list_of. simpl. rewrite HlistsF. split; [reflexivity|].
    intros _. split; [exact HFL|]. rewrite HlistsL. simpl. split; [exact Hrout|].
    exact Hrest.
Qed.

(** C8 (amended): the alliance invariant (a non-empty alliance list is
    referenced by every one of its members and by no non-member, on a
    well-formed heap) is preserved by [joinAlliance] when the joining
    character is alone and no non-member refers to the target list; the
    joiner and the old members are then mutual allies and none of them is
    alone. It is preserved by [leaveAlliance] when no fellow member is [==]
    to the leaver; the leaver then holds an empty list, a different object
    from the old one, which no longer contains the leaver and still contains
    every other member. *)
Theorem alliance_operations_preserve_invariant :
  (forall (h : Heap) (r : CRef) (c : Character) (L : LRef) (members : list CRef),
    heap_wf h -> alliance_inv h ->
    h_chars h !! r = Some c -> h_lists h !! L = Some members ->
    isAlone h r = true ->
    map_Forall (fun r' c' => r' <> r -> alliance c' = L -> r' ∈ members) (h_chars h) ->
    let h' := joinAlliance h r L in
    heap_wf h' /\ alliance_inv h' /\ list_of h' L = (members ++ [r])%list /\
    (forall m, m ∈ members -> isAllyOf h' r m = true /\ isAllyOf h' m r = true) /\
    (forall m, m ∈ list_of h' L -> isAlone h' m = false)) /\
  (forall (h : Heap) (r : CRef) (c : Character),
    heap_wf h -> alliance_inv h -> h_chars h !! r = Some c ->
    map_Forall (fun m cm => m ∈ list_of h (alliance c) -> m <> r ->
                  Character_eq item_eq zone_eq cm c = false) (h_chars h) ->
    exists h', leaveAlliance h r = Ok h' /\ heap_wf h' /\ alliance_inv h' /\
      exists c', h_chars h' !! r = Some c' /\ list_of h' (alliance c') = [] /\
        (isAlone h r = false ->
           alliance c' <> alliance c /\ (r ∉ list_of h' (alliance c)) /\
           forall m, m <> r ->
             (m ∈ list_of h' (alliance c) <-> m ∈ list_of h (alliance c)))).
Proof.
  split.
  - exact joinAlliance_preserves.
  - exact leaveAlliance_preserves.
Qed.

End AllianceProperties.

(** C8 (as stated, refuted): [joinAlliance] by a character that already
    belongs to an alliance leaves it in its old list, so the old list holds
    a member that no longer refers to it. *)
Lemma joinAlliance_breaks_invariant :
  heap_wf two_alliances /\ alliance_inv two_alliances /\
  isAlone two_alliances 0 = false /\
  ~ alliance_inv (joinAlliance two_alliances 0 1).
Proof.
  split; [by_eval|].
  split; [by_eval|].
  split; [reflexivity|].
  by_eval.
Qed.

(** Instance of the C8 theorem: C joins the alliance of A and B in
    [one_alliance], and A leaves it. *)
Lemma alliance_operations_preserve_invariant_witness :
  (heap_wf (joinAlliance one_alliance 2 0) /\
   alliance_inv (joinAlliance one_alliance 2 0)) /\
  (exists h', leaveAlliance item_eq_by_id zone_eq_by_id one_alliance 0 = Ok h' /\
     heap_wf h' /\ alliance_inv h').
Proof.
  destruct (alliance_operations_preserve_invariant item_eq_by_id zone_eq_by_id)
    as [Hjoin Hleave].
  split.
  - destruct (Hjoin one_alliance 2 (tribute "C" 1) 0 [0; 1]) as (Hwf & Hinv & _).
    + by_eval.
    + by_eval.
    + reflexivity.
    + reflexivity.
    + reflexivity.
    + by_eval.
    + split; [exact Hwf|exact Hinv].
  - destruct (Hleave one_alliance 0 (tribute "A" 0)) as (h' & Hl & Hwf & Hinv & _).
    + by_eval.
    + by_eval.
    + reflexivity.
    + by_eval.
    + exists h'. split; [exact Hl|]. split; [exact Hwf|exact Hinv].
Defined.

(** ** Instances at concrete inputs *)

Lemma toy_randint_range (a b w : Z) :
  (a <= b)%Z -> (a <= fst (toy_randint a b w) <= b)%Z.
Proof.
  intros Hab. unfold toy_randint. simpl.
  pose proof (Z.mod_pos_bound w (b - a + 1) ltac:(lia)). lia.
Qed.

(** C1 on the library of [toy_game]: "feast" and "hide" are the weighted
    candidates, and the draw picks a nonzero-chance event. *)
Lemma chooseFromEvents_weighted_witness :
  exists e w2,
    chooseFromEvents string nat toy_chance nat Z toy_prepare toy_randint
      toy_game "Katniss" [] None 4%Z = (Ok e, w2) /\ toy_chance e <> 0%nat.
Proof.
  destruct (@chooseFromEvents_weighted string nat toy_chance nat Z toy_prepare
              toy_randint toy_game "Katniss" [] None 4%Z [0; 1; 2] 4%Z)
    as (choice & w2 & pre & e & post & _ & _ & _ & _ & He & Hch).
  - intros a b w Hab. now apply toy_randint_range.
  - reflexivity.
  - discriminate.
  - exists e, w2. split; [exact Hch|exact He].
Defined.

(** C2 on the chain "feast" then "hide". *)
Lemma trigger_chain_results_witness :
  trigger string nat toy_chance toy_name nat Z toy_prepare toy_trigger toy_text
    toy_results toy_randint 5 toy_game "Katniss" 0 0%Z
  = (Ok [("feast", []); ("hide", [])], 1%Z).
Proof.
  destruct (@trigger_chain_results string nat toy_chance toy_name nat Z toy_prepare
              toy_trigger toy_text toy_results toy_randint toy_game "Katniss" 0 0%Z)
    as [Hchain _].
  destruct (Hchain [(0, ("feast", [])); (1, ("hide", []))] 1%Z 5) as [Hres _].
  - apply (@chain_sub string nat toy_chance toy_name nat Z toy_prepare toy_trigger
             toy_text toy_results toy_randint toy_game "Katniss" 0 0%Z 0 [1; 2] 0%Z
             1 1%Z [(1, ("hide", []))] 1%Z); [reflexivity|discriminate|reflexivity|].
    apply (@chain_leaf string nat toy_chance toy_name nat Z toy_prepare toy_trigger
             toy_text toy_results toy_randint toy_game "Katniss" 1 1%Z 1 1%Z).
    reflexivity.
  - simpl. lia.
  - exact Hres.
Defined.

(** C3 on a suite with one authored "tag" condition. *)
Lemma CheckSuite_load_implicit_alive_witness :
  exists loaded, loaded = [TagCheck "career"] /\
    CheckSuite_load unit (fun _ v => v) (fun _ _ => Ok tt) (fun _ v => v) (fun _ v => v)
      (fun _ _ => Ok tt) (fun _ _ => Ok tt) (fun _ => Ok tt) (fun _ _ => Ok [])
      (fun _ _ => Ok []) (fun _ => 0%Z)
      (CheckSuite_init "tribute" [["tag"; "career"]]) tt
    = (Ok (mkCheckSuite "tribute" [["tag"; "career"]] (AliveCheck "alive" :: loaded)), tt).
Proof.
  destruct (@CheckSuite_load_implicit_alive unit (fun _ v => v) (fun _ _ => Ok tt)
              (fun _ v => v) (fun _ v => v) (fun _ _ => Ok tt) (fun _ _ => Ok tt)
              (fun _ => Ok tt) (fun _ _ => Ok []) (fun _ _ => Ok []) (fun _ => 0%Z)
              item_eq_by_id zone_eq_by_id ItemBindings (fun _ _ => 0%nat) bind_item
              (fun _ _ => 0%Z) (fun _ => 0%Z) unit first_choice
              "tribute" [["tag"; "career"]] tt
              (mkCheckSuite "tribute" [["tag"; "career"]]
                 [AliveCheck "alive"; TagCheck "career"]) tt)
    as [Hnone _].
  - reflexivity.
  - destruct (Hnone eq_refl) as [(loaded & Hcs & _) _]. simpl in Hcs.
    injection Hcs as <-. exists [TagCheck "career"]. split; reflexivity.
Defined.

(** C5 on the pool of "wander" and "rest": only the fallback is prepared
    and it is returned. *)
Lemma chooseFromEvents_no_applicable_event_witness :
  chooseFromEvents string nat toy_chance nat Z toy_prepare toy_randint
    toy_game "Katniss" [2; 3] None 0%Z = (Ok 2, 0%Z).
Proof.
  destruct (@chooseFromEvents_no_applicable_event string nat toy_chance nat Z
              toy_prepare toy_randint toy_game "Katniss" [2; 3] None 0%Z [2] 0%Z)
    as (_ & _ & Hfallback).
  - intros a b w Hab. now apply toy_randint_range.
  - reflexivity.
  - apply Hfallback; reflexivity.
Defined.

(** C7 on Clove's inventory: the first item tagged "sharp" is the sword. *)
Lemma ItemCheck_binds_first_match_witness :
  check item_eq_by_id zone_eq_by_id ItemBindings (fun _ _ => 0%nat) bind_item
    (fun _ _ => 0%Z) (fun _ => 0%Z) unit first_choice
    (ItemCheck "item" "weapon" ["sharp"]) armed_heap 0 [] tt
  = (Ok true, [("weapon", sword)], tt).
Proof.
  destruct (@ItemCheck_binds_first_match item_eq_by_id zone_eq_by_id ItemBindings
              (fun _ _ => 0%nat) bind_item (fun _ _ => 0%Z) (fun _ => 0%Z) unit
              first_choice "item" "weapon" ["sharp"] armed_heap 0 [] tt)
    as [_ Hfound].
  - left. reflexivity.
  - apply (Hfound [rope] sword []).
    + reflexivity.
    + constructor; [reflexivity|constructor].
    + reflexivity.
Defined.

(** C9 on two tributes that differ only in their alliance list. *)
Lemma Character_eq_hash_fields_witness :
  Character_eq item_eq_by_id zone_eq_by_id (tribute "A" 0) (tribute "A" 1) = true.
Proof.
  destruct (@Character_eq_hash_fields item_eq_by_id zone_eq_by_id (fun _ => 0%Z)
              (tribute "A" 0) (tribute "A" 1) (tribute "B" 0) (tribute "B" 1))
    as (_ & _ & _ & Hself).
  - repeat split.
  - repeat split.
  - apply Hself. intros z. apply Nat.eqb_refl.
Defined.

(** C10 on [toy_game]: an unknown character, and a known character with a
    known, prepared event. *)
Lemma triggerByName_cases_witness :
  triggerByName string (fun t => t) nat toy_name toy_chance toy_name nat Z toy_prepare
    toy_trigger toy_text toy_results toy_randint 5 toy_game "Gale" "feast" 0%Z
  = (Ok [("unable to find character named Gale", [])], 0%Z) /\
  triggerByName string (fun t => t) nat toy_name toy_chance toy_name nat Z toy_prepare
    toy_trigger toy_text toy_results toy_randint 5 toy_game "Peeta" "hide" 0%Z
  = trigger string nat toy_chance toy_name nat Z toy_prepare toy_trigger toy_text
      toy_results toy_randint 5 toy_game "Peeta" 1 0%Z.
Proof.
  destruct (@triggerByName_cases string (fun t => t) nat toy_name toy_chance toy_name
              nat Z toy_prepare toy_trigger toy_text toy_results toy_randint 5 toy_game
              "Gale" "feast" 0%Z) as [Hnochar _].
  destruct (@triggerByName_cases string (fun t => t) nat toy_name toy_chance toy_name
              nat Z toy_prepare toy_trigger toy_text toy_results toy_randint 5 toy_game
              "Peeta" "hide" 0%Z) as [_ Hfound].
  split.
  - apply Hnochar. simpl. intros t [<-|[<-|[]]]; discriminate.
  - destruct (Hfound ["Katniss"] "Peeta" []) as [_ Hev].
    + reflexivity.
    + constructor; [discriminate|constructor].
    + reflexivity.
    + exact (Hev [0] 1 [2; 3] eq_refl
               ltac:(constructor; [discriminate|constructor]) eq_refl true 0%Z eq_refl).
Defined.

(** * Further properties *)

(** ** Tags *)

Lemma existsb_eqb_elem (t : string) (l : list string) :
  existsb (String.eqb t) l = true <-> t ∈ l.
Proof.
  rewrite existsb_exists. split.
  - intros (x & Hx & E). apply String.eqb_eq in E. subst. now apply list_elem_of_In.
  - intros H. exists t. split; [now apply list_elem_of_In|apply String.eqb_refl].
Qed.

Lemma tag_in_spec (c : Character) (t : string) : tag_in c t = true <-> t ∈ tags c.
Proof. apply existsb_eqb_elem. Qed.

Lemma str_remove_none (x : string) (l : list string) : str_remove x l = None <-> x ∉ l.
Proof.
  induction l as [|e l IH]; simpl.
  - split; [intros _ H; inversion H|reflexivity].
  - rewrite elem_of_cons. destruct (String.eqb e x) eqn:E.
    + apply String.eqb_eq in E. subst. split; [discriminate|]. intros H. exfalso. tauto.
    + destruct (str_remove x l) eqn:Er.
      * split; [discriminate|]. intros H. exfalso. apply H. right.
        destruct (decide (x ∈ l)) as [Hin|Hn]; [exact Hin|]. apply IH in Hn. discriminate.
      * split; [|reflexivity]. intros _ [->|Hin].
        -- rewrite String.eqb_refl in E. discriminate.
        -- now apply IH in Hin.
Qed.

Lemma str_remove_some (x : string) (l l' : list string) :
  str_remove x l = Some l' ->
  exists pre post, l = (pre ++ x :: post)%list /\ (x ∉ pre) /\ l' = (pre ++ post)%list.
Proof.
  revert l'. induction l as [|e l IH]; intros l'; simpl; [discriminate|].
  destruct (String.eqb e x) eqn:E.
  - intros [= <-]. apply String.eqb_eq in E. subst.
    exists [], l. split; [reflexivity|]. split; [intros H; inversion H|reflexivity].
  - destruct (str_remove x l) as [l0|] eqn:Er; [|discriminate]. intros [= <-].
    destruct (IH l0 eq_refl) as (pre & post & -> & Hpre & ->).
    exists (e :: pre), post. split; [reflexivity|]. split; [|reflexivity].
    rewrite elem_of_cons. intros [->|H]; [rewrite String.eqb_refl in E; discriminate|contradiction].
Qed.

Lemma str_remove_app_last (x : string) (l : list string) :
  x ∉ l -> str_remove x (l ++ [x])%list = Some l.
Proof.
  induction l as [|a l IH]; simpl; intros H.
  - now rewrite String.eqb_refl.
  - rewrite elem_of_cons in H. destruct (String.eqb a x) eqn:E.
    + apply String.eqb_eq in E. subst. exfalso. tauto.
    + rewrite IH by tauto. reflexivity.
Qed.

Lemma addTag_facts (c : Character) (t : string) :
  tag_in (addTag c t) t = true /\
  addTag (addTag c t) t = addTag c t /\
  (forall t', t' ∈ tags c -> t' ∈ tags (addTag c t)) /\
  (forall t', t' ∈ tags (addTag c t) -> t' = t \/ t' ∈ tags c) /\
  (NoDup (tags c) -> NoDup (tags (addTag c t))).
Proof.
  unfold addTag. destruct (tag_in c t) eqn:E.
  - simpl. rewrite ?E. split; [first [reflexivity|exact E]|]. split; [now rewrite ?E|].
    split; [auto|]. split; auto.
  - assert (Hn : t ∉ tags c) by (intros H; apply tag_in_spec in H; congruence).
    assert (Hin : tag_in (set_tags c (tags c ++ [t])%list) t = true).
    { apply tag_in_spec. simpl. apply elem_of_app. right. now apply list_elem_of_singleton. }
    split; [exact Hin|]. split; [now rewrite Hin|]. simpl. split.
    + intros t' H. apply elem_of_app. now left.
    + split.
      * intros t' H. apply elem_of_app in H as [H|H]; [now right|].
        left. now apply list_elem_of_singleton.
      * intros Hnd. apply NoDup_app. split; [exact Hnd|]. split; [|apply NoDup_singleton].
        intros x Hx Hx'. apply list_elem_of_singleton in Hx'. subst. contradiction.
Qed.

Lemma addTag_fields (c : Character) (t : string) :
  location (addTag c t) = location c /\ alliance (addTag c t) = alliance c /\
  alive (addTag c t) = alive c /\ items (addTag c t) = items c /\ name (addTag c t) = name c.
Proof. unfold addTag. destruct (tag_in c t); repeat split. Qed.

(** X1: [addTag] makes [hasTag] true, adds the tag at most once (a second
    [addTag] of the same tag changes nothing), keeps every tag the character
    had and adds no other, and keeps a duplicate-free tag list
    duplicate-free. *)
Theorem addTag_no_duplicates (c : Character) (t : string) :
  tag_in (addTag c t) t = true /\
  addTag (addTag c t) t = addTag c t /\
  (forall t', t' ∈ tags c -> t' ∈ tags (addTag c t)) /\
  (forall t', t' ∈ tags (addTag c t) -> t' = t \/ t' ∈ tags c) /\
  (NoDup (tags c) -> NoDup (tags (addTag c t))).
Proof. exact (addTag_facts c t). Qed.

(** X2: [removeTag] raises [ValueError] exactly when the character does not
    carry the tag. On a duplicate-free tag list (which [addTag] keeps) it
    removes the tag, so [hasTag] becomes false, and keeps every other tag;
    and removing a tag just added gives back the character unchanged. *)
Theorem removeTag_behaviour (c : Character) (t : string) :
  ((exists m, removeTag c t = Raise m) <-> t ∉ tags c) /\
  (NoDup (tags c) -> t ∈ tags c ->
     exists c', removeTag c t = Ok c' /\ tag_in c' t = false /\ NoDup (tags c') /\
       (forall t', t' <> t -> t' ∈ tags c' <-> t' ∈ tags c)) /\
  (tag_in c t = false -> removeTag (addTag c t) t = Ok c).
Proof.
  split; [|split].
  - unfold removeTag. destruct (str_remove t (tags c)) eqn:E.
    + split; [intros (m & Hm); discriminate|]. intros Hn. apply str_remove_none in Hn. congruence.
    + split; [intros _; now apply str_remove_none|]. intros _. eexists. reflexivity.
  - intros Hnd Hin. unfold removeTag. destruct (str_remove t (tags c)) as [l|] eqn:E.
    2: { apply str_remove_none in E. contradiction. }
    destruct (str_remove_some _ _ _ E) as (pre & post & Hsplit & Hpre & ->).
    rewrite Hsplit in Hnd. apply NoDup_app in Hnd as (H1 & H2 & H3).
    apply NoDup_cons in H3 as [H3 H4].
    exists (set_tags c (pre ++ post)%list). split; [reflexivity|]. split; [|split].
    + apply not_true_iff_false. intros Ht. apply tag_in_spec in Ht. simpl in Ht.
      apply elem_of_app in Ht as [Ht|Ht]; contradiction.
    + simpl. apply NoDup_app. split; [exact H1|]. split; [|exact H4].
      intros x Hx Hx'. apply (H2 x Hx). apply elem_of_cons. now right.
    + intros t' Hne. simpl. rewrite Hsplit, !elem_of_app, elem_of_cons. intuition congruence.
  - intros Hn. unfold addTag. rewrite Hn. unfold removeTag. simpl.
    rewrite str_remove_app_last; [now destruct c|].
    intros H. apply tag_in_spec in H. congruence.
Qed.

(** ** Age and rounds survived *)

(** X3: [incAge] adds one to the age, and one to the rounds survived
    exactly when the character is alive. A character has always survived
    fewer rounds than its age: [reset] sets age 1 and no round survived
    (and revives), and [incAge], [kill] and [revive] keep
    [0 <= roundsSurvived < age]. *)
Theorem age_counters (c : Character) :
  age (incAge c) = (age c + 1)%Z /\
  roundsSurvived (incAge c) = (roundsSurvived c + if alive c then 1 else 0)%Z /\
  (counters_ok c ->
     counters_ok (incAge c) /\ counters_ok (kill c) /\ counters_ok (revive c)) /\
  (forall (h : Heap) (r : CRef), h_chars h !! r = Some c ->
     exists c', h_chars (reset h r) !! r = Some c' /\ counters_ok c' /\
       alive c' = true /\ age c' = 1%Z /\ roundsSurvived c' = 0%Z).
Proof.
  unfold counters_ok, incAge, kill, revive. simpl.
  split; [reflexivity|]. split; [destruct (alive c); lia|]. split.
  - intros Hc. destruct (alive c); simpl; repeat split; lia.
  - intros h r Hr. unfold reset. rewrite Hr. eexists. split; [apply lookup_insert_eq|].
    simpl. repeat split; lia.
Qed.

(** ** Items *)

Section TakeItemProperties.

Variable item_eq : Item -> Item -> bool.

Lemma item_remove_none (i : Item) (l : list Item) :
  item_remove item_eq i l = None <->
  Forall (fun e => ((item_id e =? item_id i)%nat || item_eq e i) = false) l.
Proof.
  induction l as [|e l IH]; simpl.
  - split; [constructor|reflexivity].
  - destruct ((item_id e =? item_id i)%nat || item_eq e i) eqn:E.
    + split; [discriminate|]. intros H. inversion H. congruence.
    + destruct (item_remove item_eq i l) eqn:Er.
      * split; [discriminate|]. intros H. inversion H as [|? ? _ Hl]. apply IH in Hl. discriminate.
      * split; [|reflexivity]. intros _. constructor; [exact E|]. now apply IH.
Qed.

Lemma item_remove_some (i : Item) (l l' : list Item) :
  item_remove item_eq i l = Some l' ->
  exists pre e post, l = (pre ++ e :: post)%list /\
    ((item_id e =? item_id i)%nat || item_eq e i) = true /\
    Forall (fun e => ((item_id e =? item_id i)%nat || item_eq e i) = false) pre /\
    l' = (pre ++ post)%list.
Proof.
  revert l'. induction l as [|e l IH]; intros l'; simpl; [discriminate|].
  destruct ((item_id e =? item_id i)%nat || item_eq e i) eqn:E.
  - intros [= <-]. exists [], e, l. repeat split; [exact E|constructor].
  - destruct (item_remove item_eq i l) as [l0|] eqn:Er; [|discriminate]. intros [= <-].
    destruct (IH l0 eq_refl) as (pre & e' & post & -> & He & Hpre & ->).
    exists (e :: pre), e', post. repeat split; [exact He|]. constructor; assumption.
Qed.

(** X4: [takeItem(item)] raises [ValueError] exactly when no carried item
    is that item or [==] to it. Otherwise it removes the first such item,
    which may be a different object equal to the given one, keeps the
    others in order and changes nothing else: the character carries one
    item fewer. *)
Theorem takeItem_removes_first_equal (c : Character) (i : Item) :
  ((exists m, takeItem item_eq c i = Raise m) <->
   Forall (fun e => ((item_id e =? item_id i)%nat || item_eq e i) = false) (items c)) /\
  (forall c', takeItem item_eq c i = Ok c' ->
     exists pre e post, items c = (pre ++ e :: post)%list /\
       ((item_id e =? item_id i)%nat || item_eq e i) = true /\
       Forall (fun e => ((item_id e =? item_id i)%nat || item_eq e i) = false) pre /\
       c' = set_items c (pre ++ post)%list /\
       length (items c') + 1 = length (items c)).
Proof.
  unfold takeItem. split.
  - destruct (item_remove item_eq i (items c)) eqn:E.
    + split; [intros (m & Hm); discriminate|]. intros Hf. apply item_remove_none in Hf. congruence.
    + split; [intros _; now apply item_remove_none|]. intros _. eexists. reflexivity.
  - intros c' Hc. destruct (item_remove item_eq i (items c)) as [l|] eqn:E; [|discriminate].
    injection Hc as <-. destruct (item_remove_some _ _ _ E) as (pre & e & post & Hs & He & Hpre & ->).
    exists pre, e, post. repeat split; try assumption.
    simpl. rewrite Hs, !length_app. simpl. lia.
Qed.

End TakeItemProperties.

(** ** Reset and alliances *)

(** X5: [reset] gives an allied character a fresh empty alliance list, so it
    is alone afterwards, but it never removes the character from its old
    alliance list: the other members still count it as an ally, and the
    alliance invariant no longer holds. *)
Theorem reset_keeps_character_in_old_alliance (item_eq : Item -> Item -> bool)
  (zone_eq : Zone -> Zone -> bool) (h : Heap) (r : CRef) (c : Character) :
  heap_wf h -> alliance_inv h -> h_chars h !! r = Some c -> isAlone h r = false ->
  let h' := reset h r in
  isAlone h' r = true /\ r ∈ list_of h' (alliance c) /\
  (forall m, m ∈ list_of h (alliance c) -> m <> r -> isAllyOf item_eq zone_eq h' m r = true) /\
  ~ alliance_inv h'.
Proof.
  intros (Hw1 & Hw2 & Hw3) Hinv Hr Ha h'.
  destruct (Hw1 r c Hr) as [members HL].
  pose proof (list_of_lookup _ _ _ HL) as HlL.
  assert (Hne : members <> []).
  { intros ->. unfold isAlone in Ha. rewrite Hr, HlL in Ha. discriminate. }
  assert (Hrin : r ∈ members) by (now apply (Hinv (alliance c) members HL Hne r c Hr)).
  assert (HF : h_next h <> alliance c) by (pose proof (Hw3 _ _ HL); simpl in *; lia).
  assert (Hchars : h_chars h' = <[r := mkCharacter (name c) (imgSrc c) (subj c) (obj c)
      (plur1 c) (plur2 c) (flex c) (plural c) [] [] None (h_next h) true 1%Z 0%Z]> (h_chars h)).
  { subst h'. unfold reset. now rewrite Hr. }
  assert (Hlists : h_lists h' = <[h_next h := []]> (h_lists h)).
  { subst h'. unfold reset. now rewrite Hr. }
  assert (HlL' : list_of h' (alliance c) = members).
  { unfold list_of. rewrite Hlists, lookup_insert_ne by congruence. now rewrite HL. }
  split; [|split; [|split]].
  - unfold isAlone. rewrite Hchars, lookup_insert_eq. simpl.
    unfold list_of. rewrite Hlists, lookup_insert_eq. reflexivity.
  - now rewrite HlL'.
  - intros m Hm Hmr. rewrite HlL in Hm.
    destruct (Hw2 _ _ HL) as [_ Hv]. rewrite Forall_forall in Hv.
    destruct (Hv m Hm) as [cm Hcm].
    assert (Hal : alliance cm = alliance c) by (now apply (Hinv _ members HL Hne m cm Hcm)).
    unfold isAllyOf. rewrite Hchars, lookup_insert_ne by congruence. rewrite Hcm, Hal, HlL'.
    now apply existsb_py_eq_in.
  - intros Hinv'.
    assert (Hl' : h_lists h' !! alliance c = Some members).
    { rewrite Hlists, lookup_insert_ne by congruence. exact HL. }
    assert (Hr' : h_chars h' !! r = Some (mkCharacter (name c) (imgSrc c) (subj c) (obj c)
      (plur1 c) (plur2 c) (flex c) (plural c) [] [] None (h_next h) true 1%Z 0%Z)).
    { rewrite Hchars. apply lookup_insert_eq. }
    pose proof (Hinv' _ _ Hl' Hne r _ Hr') as [_ H]. simpl in H. apply HF. now apply H.
Qed.

(** ** Game.start *)

Lemma update_char_lists (h : Heap) (r : CRef) (f : Character -> Character) :
  h_lists (update_char h r f) = h_lists h /\ h_next (update_char h r f) = h_next h.
Proof. unfold update_char. destruct (h_chars h !! r); auto. Qed.

Lemma update_char_same (h : Heap) (r : CRef) (f : Character -> Character) (c : Character) :
  h_chars h !! r = Some c -> h_chars (update_char h r f) !! r = Some (f c).
Proof. unfold update_char. intros ->. simpl. apply lookup_insert_eq. Qed.

Lemma update_char_other (h : Heap) (r r' : CRef) (f : Character -> Character) :
  r' <> r -> h_chars (update_char h r f) !! r' = h_chars h !! r'.
Proof.
  unfold update_char. intros Hne. destruct (h_chars h !! r); [|reflexivity].
  simpl. now apply lookup_insert_ne.
Qed.

Lemma update_char_none (h : Heap) (r r' : CRef) (f : Character -> Character) :
  h_chars h !! r' = None -> h_chars (update_char h r f) !! r' = None.
Proof.
  intros Hn. destruct (decide (r' = r)) as [->|Hne].
  - unfold update_char. now rewrite Hn.
  - now rewrite update_char_other.
Qed.

Section StartProperties.

Variable Mp : Type.
Variable getStartingZone : Mp -> Zone * Mp.

Abbreviation start := (start Mp getStartingZone).
Abbreviation started := (@started Mp getStartingZone).

Lemma started_step (c : Character) (m : Mp) :
  started c (addTag (move c (Some (fst (getStartingZone m)))) "running").
Proof.
  set (c0 := move c (Some (fst (getStartingZone m)))).
  destruct (addTag_facts c0 "running") as (Hin & _ & _ & _ & Hnd).
  destruct (addTag_fields c0 "running") as (Hl & Ha & Hal & Hi & Hn).
  split; [exists m; rewrite Hl; reflexivity|]. split; [exact Hin|]. split; [exact Hnd|].
  rewrite Ha, Hal, Hi, Hn. repeat split.
Qed.

Lemma started_trans (c1 c2 c3 : Character) :
  started c1 c2 -> started c2 c3 -> started c1 c3.
Proof.
  intros (_ & _ & N1 & A1 & L1 & I1 & M1) (Z2 & T2 & N2 & A2 & L2 & I2 & M2).
  split; [exact Z2|]. split; [exact T2|]. split; [auto|]. repeat split; congruence.
Qed.

Lemma start_facts (ts : list CRef) (h : Heap) (m : Mp) :
  let h' := fst (start h ts m) in
  h_lists h' = h_lists h /\ h_next h' = h_next h /\
  (forall r, r ∉ ts -> h_chars h' !! r = h_chars h !! r) /\
  (forall r, h_chars h !! r = None -> h_chars h' !! r = None) /\
  (forall t c, t ∈ ts -> h_chars h !! t = Some c ->
     exists c', h_chars h' !! t = Some c' /\ started c c').
Proof.
  revert h m. induction ts as [|t rest IH]; intros h m; simpl.
  - split; [reflexivity|]. split; [reflexivity|]. split; [reflexivity|].
    split; [auto|]. intros t c Ht. inversion Ht.
  - destruct (getStartingZone m) as [z m1] eqn:Hg.
    set (f := fun c => addTag (move c (Some z)) "running").
    assert (Hf : forall c, started c (f c)).
    { intros c. unfold f. replace z with (fst (getStartingZone m)) by now rewrite Hg.
      apply started_step. }
    destruct (IH (update_char h t f) m1) as (HL & HN & Hother & Hnone & Hin).
    destruct (update_char_lists h t f) as [HL1 HN1].
    split; [congruence|]. split; [congruence|]. split; [|split].
    + intros r Hr. rewrite elem_of_cons in Hr.
      rewrite Hother by tauto. apply update_char_other. tauto.
    + intros r Hr. apply Hnone. now apply update_char_none.
    + intros t' c Ht' Hc.
      destruct (decide (t' ∈ rest)) as [Hr|Hr].
      * destruct (decide (t' = t)) as [->|Hne].
        -- destruct (Hin t (f c) Hr (update_char_same _ _ _ _ Hc)) as (c' & Hc' & Hs).
           exists c'. split; [exact Hc'|]. exact (started_trans _ _ _ (Hf c) Hs).
        -- rewrite <- (update_char_other h t t' f Hne) in Hc. now apply Hin.
      * rewrite elem_of_cons in Ht'. destruct Ht' as [->|Ht']; [|contradiction].
        exists (f c). split; [|apply Hf]. rewrite Hother by exact Hr.
        now apply update_char_same.
Qed.

(** X6: [Game.start] moves every tribute to a zone the map's
    [getStartingZone] returned and gives it the tag "running" (once: a
    duplicate-free tag list stays duplicate-free), keeping its alliance,
    liveness, items and name. It touches no character outside the cast and
    no alliance list, so whether a character is alone is unchanged. *)
Theorem start_places_and_tags (h : Heap) (ts : list CRef) (m : Mp) :
  let h' := fst (start h ts m) in
  (forall t c, t ∈ ts -> h_chars h !! t = Some c ->
     exists c', h_chars h' !! t = Some c' /\ started c c') /\
  (forall r, r ∉ ts -> h_chars h' !! r = h_chars h !! r) /\
  h_lists h' = h_lists h /\ h_next h' = h_next h /\
  (forall r, isAlone h' r = isAlone h r).
Proof.
  destruct (start_facts ts h m) as (HL & HN & Hother & Hnone & Hin).
  intros h'. split; [exact Hin|]. split; [exact Hother|]. split; [exact HL|].
  split; [exact HN|]. intros r. unfold isAlone, list_of. subst h'. rewrite HL.
  destruct (h_chars h !! r) as [c|] eqn:Hc.
  - destruct (decide (r ∈ ts)) as [Hr|Hr].
    + destruct (Hin r c Hr Hc) as (c' & Hc' & (_ & _ & _ & Ha & _)).
      rewrite Hc', Ha. reflexivity.
    + rewrite (Hother r Hr), Hc. reflexivity.
  - now rewrite (Hnone r Hc).
Qed.

End StartProperties.

(** ** Evaluation of conditions *)

Section CheckEffects.

Variable item_eq : Item -> Item -> bool.
Variable zone_eq : Zone -> Zone -> bool.
Variable State : Type.
Variable getChar : option string -> State -> CRef.
Variable setItem : string -> Item -> State -> State.
Variable getTriggersFor : CRef -> State -> Z.
Variable getTotalTriggers : State -> Z.
Variable Rng : Type.
Variable py_choice : list Item -> Rng -> result Item * Rng.

Abbreviation check := (check item_eq zone_eq State getChar setItem getTriggersFor
                     getTotalTriggers Rng py_choice).
Abbreviation checkAll := (checkAll item_eq zone_eq State getChar setItem
  getTriggersFor getTotalTriggers Rng py_choice).

Lemma check_effects_facts (c : Check) (h : Heap) (char : CRef) (st : State) (rng : Rng) :
  (writes_state c = false -> snd (fst (check c h char st rng)) = st) /\
  (draws_random c = false -> snd (check c h char st rng) = rng) /\
  (fst (fst (check c h char st rng)) <> Ok true -> snd (fst (check c h char st rng)) = st).
Proof.
  destruct c; simpl; repeat case_match; simplify_eq; simpl;
    repeat split; intros; try reflexivity; try congruence; discriminate.
Qed.

(** X7: a condition writes to the State object only when it is an "item"
    or "create" condition and passes, and only a "create" condition draws
    from the random module: every other condition, and every condition
    that fails or raises, leaves the State as it was. *)
Theorem check_side_effects (c : Check) (h : Heap) (char : CRef) (st : State) (rng : Rng) :
  (writes_state c = false -> snd (fst (check c h char st rng)) = st) /\
  (draws_random c = false -> snd (check c h char st rng) = rng) /\
  (fst (fst (check c h char st rng)) <> Ok true -> snd (fst (check c h char st rng)) = st).
Proof. exact (check_effects_facts c h char st rng). Qed.


Lemma checkAll_app_eq (cs1 cs2 : list Check) (h : Heap) (char : CRef) (st : State)
  (rng : Rng) :
  checkAll (cs1 ++ cs2)%list h char st rng =
  match checkAll cs1 h char st rng with
  | (Ok l1, st1, rng1) =>
      match checkAll cs2 h char st1 rng1 with
      | (Ok l2, st2, rng2) => (Ok (l1 ++ l2)%list, st2, rng2)
      | (Raise m, st2, rng2) => (Raise m, st2, rng2)
      end
  | (Raise m, st1, rng1) => (Raise m, st1, rng1)
  end.
Proof.
  revert st rng. induction cs1 as [|c cs1 IH]; intros st rng; simpl.
  - destruct (checkAll cs2 h char st rng) as [[[l|m] st2] rng2]; reflexivity.
  - destruct (check c h char st rng) as [[[b|m] st1] rng1]; [|reflexivity].
    rewrite IH. destruct (checkAll cs1 h char st1 rng1) as [[[l1|m] st2] rng2]; [|reflexivity].
    destruct (checkAll cs2 h char st2 rng2) as [[[l2|m] st3] rng3]; reflexivity.
Qed.

(** X9: [checkAll] evaluates every condition, in order and without
    short-circuit: on success it returns one answer per condition, the
    answers of a concatenated list are the concatenated answers (the second
    part run in the State and random source the first part left), and a
    list with no "item" or "create" condition leaves the State as it was. *)
Theorem checkAll_every_condition (h : Heap) (char : CRef) :
  (forall cs st rng l st' rng', checkAll cs h char st rng = (Ok l, st', rng') ->
     length l = length cs) /\
  (forall cs1 cs2 st rng, checkAll (cs1 ++ cs2)%list h char st rng =
     match checkAll cs1 h char st rng with
     | (Ok l1, st1, rng1) =>
         match checkAll cs2 h char st1 rng1 with
         | (Ok l2, st2, rng2) => (Ok (l1 ++ l2)%list, st2, rng2)
         | (Raise m, st2, rng2) => (Raise m, st2, rng2)
         end
     | (Raise m, st1, rng1) => (Raise m, st1, rng1)
     end) /\
  (forall cs st rng, Forall (fun c => writes_state c = false) cs ->
     snd (fst (checkAll cs h char st rng)) = st).
Proof.
  split; [|split].
  - intros cs. induction cs as [|c cs IH]; intros st rng l st' rng' H; simpl in H.
    + now injection H as <-.
    + destruct (check c h char st rng) as [[[b|m] st1] rng1]; [|discriminate].
      destruct (checkAll cs h char st1 rng1) as [[[l1|m] st2] rng2] eqn:E; [|discriminate].
      injection H as <- _ _. simpl. f_equal. exact (IH _ _ _ _ _ E).
  - intros cs1 cs2 st rng. exact (checkAll_app_eq cs1 cs2 h char st rng).
  - intros cs. induction cs as [|c cs IH]; intros st rng Hw; simpl; [reflexivity|].
    inversion Hw as [|? ? Hc Hcs]; subst.
    destruct (check_effects_facts c h char st rng) as [Hst _].
    specialize (Hst Hc).
    destruct (check c h char st rng) as [[[b|m] st1] rng1]; simpl in Hst; subst st1;
      [|reflexivity].
    specialize (IH st rng1 Hcs).
    destruct (checkAll cs h char st rng1) as [[[l1|m] st2] rng2]; simpl in *; congruence.
Qed.

End CheckEffects.

Section LocationAfterStart.

Variable item_eq : Item -> Item -> bool.
Variable zone_eq : Zone -> Zone -> bool.
Variable State : Type.
Variable getChar : option string -> State -> CRef.
Variable setItem : string -> Item -> State -> State.
Variable getTriggersFor : CRef -> State -> Z.
Variable getTotalTriggers : State -> Z.
Variable Rng : Type.
Variable py_choice : list Item -> Rng -> result Item * Rng.
Variable Mp : Type.
Variable getStartingZone : Mp -> Zone * Mp.

Abbreviation check := (check item_eq zone_eq State getChar setItem getTriggersFor
                     getTotalTriggers Rng py_choice).
Abbreviation start := (start Mp getStartingZone).


End LocationAfterStart.

(** ** Construction of conditions *)

Section ConstructionProperties.

Variable Valids : Type.
Variable addCharShort : string -> Valids -> Valids.
Variable validateCharShort : string -> Valids -> result unit.
Variable addItemShortToValids : string -> Valids -> Valids.
Variable addTagNameToValids : string -> Valids -> Valids.
Variable validateLoadedItemTag : string -> Valids -> result unit.
Variable validateLoadedZoneName : string -> Valids -> result unit.
Variable validateIsInt : string -> result unit.
Variable getLoadedItemsWithTags : list string -> Valids -> result (list Item).
Variable getLoadedItemWithName : string -> Valids -> result (list Item).
Variable py_int : string -> Z.

Variable item_eq : Item -> Item -> bool.
Variable zone_eq : Zone -> Zone -> bool.
Variable State : Type.
Variable getChar : option string -> State -> CRef.
Variable setItem : string -> Item -> State -> State.
Variable getTriggersFor : CRef -> State -> Z.
Variable getTotalTriggers : State -> Z.
Variable Rng : Type.
Variable py_choice : list Item -> Rng -> result Item * Rng.

Abbreviation check := (check item_eq zone_eq State getChar setItem getTriggersFor
                     getTotalTriggers Rng py_choice).
Abbreviation NearbyCheck_init := (NearbyCheck_init Valids validateCharShort).
Abbreviation ItemCheck_init :=
  (ItemCheck_init Valids addItemShortToValids validateLoadedItemTag).
Abbreviation CreateCheck_init := (CreateCheck_init Valids addItemShortToValids
  validateLoadedItemTag getLoadedItemsWithTags getLoadedItemWithName).
Abbreviation load := (CheckSuite_load Valids addCharShort validateCharShort
  addItemShortToValids addTagNameToValids validateLoadedItemTag
  validateLoadedZoneName validateIsInt getLoadedItemsWithTags getLoadedItemWithName
  py_int).
Abbreviation addNearbyCheckIfNeeded := (addNearbyCheckIfNeeded Valids validateCharShort).



(** X13: a suite that loaded successfully always holds an [AliveCheck]
    (authored or implicit), so [addNearbyCheckIfNeeded] never changes it:
    the proximity check it adds is never added after [load]. *)
Theorem load_then_addNearbyCheckIfNeeded (s0 : CheckSuite) (v : Valids) (s : CheckSuite)
  (v' : Valids) :
  load s0 v = (Ok s, v') ->
  existsb is_AliveCheck (checks s) = true /\
  (forall v'', addNearbyCheckIfNeeded s v'' = (Ok s, v'')).
Proof.
  unfold CheckSuite_load.
  destruct (Suite_load Valids _ _ (argsLists s0) (checks s0)) as [[cs|m] v1]; [|discriminate].
  destruct (existsb is_AliveCheck cs) eqn:E; simpl; intros H; inversion H; subst; simpl.
  - split; [exact E|]. intros v''. unfold addNearbyCheckIfNeeded. simpl. now rewrite E.
  - split; [reflexivity|]. intros v''. reflexivity.
Qed.

End ConstructionProperties.

(** ** Choosing, triggering and rounds *)

Section EngineChoice.

Variable Char : Type.
Variable Event : Type.
Variable getChance : Event -> nat.
Variable StateRef : Type.
Variable W : Type.
Variable prepare : Event -> Char -> list Char -> option StateRef -> W -> bool * W.
Variable randint : Z -> Z -> W -> Z * W.

Abbreviation Game := (Game Char Event).
Abbreviation tributes := (tributes Char Event).
Abbreviation events := (events Char Event).
Abbreviation prepared_events := (prepared_events Char Event StateRef W prepare).
Abbreviation select_loop := (select_loop Event getChance).
Abbreviation chooseFromEvents :=
  (chooseFromEvents Char Event getChance StateRef W prepare randint).

Lemma prepared_events_sub (self : Game) (char : Char) (st : option StateRef)
  (l : list Event) (w : W) (x : Event) :
  x ∈ fst (prepared_events self char st l w) -> x ∈ l.
Proof.
  revert w. induction l as [|e rest IH]; intros w; simpl; [intros H; inversion H|].
  destruct (prepare e char (tributes self) st w) as [ok w1].
  specialize (IH w1).
  destruct (prepared_events self char st rest w1) as [ps w2]. simpl in *.
  rewrite elem_of_cons. destruct ok; [rewrite elem_of_cons|]; intuition.
Qed.

Lemma select_loop_in (choice count : Z) (l : list Event) (e : Event) :
  select_loop choice count l = Ok e -> e ∈ l /\ getChance e <> 0%nat.
Proof.
  revert count. induction l as [|x rest IH]; intros count; simpl; [discriminate|].
  destruct ((count <=? choice) && (choice <? count + chance Event getChance x))%Z eqn:E.
  - intros [= <-]. split; [apply elem_of_cons; now left|].
    apply andb_prop in E as [E1 E2]. apply Z.leb_le in E1. apply Z.ltb_lt in E2.
    unfold_chance in E2. lia.
  - intros H. destruct (IH _ H) as [Hin Hc]. split; [apply elem_of_cons; now right|exact Hc].
Qed.

(** X14: whatever [randint] returns, an event returned by
    [chooseFromEvents] is one of the pool (the library when the pool is
    empty) whose [prepare] succeeded; one of chance 0 is returned only when
    no prepared event has a nonzero chance, and it is then the last prepared
    event of chance 0. *)
Theorem chooseFromEvents_returns_prepared (self : Game) (char : Char) (evs : list Event)
  (st : option StateRef) (w : W) (e : Event) (w' : W) :
  chooseFromEvents self char evs st w = (Ok e, w') ->
  let pool := match evs with [] => events self | _ => evs end in
  let prepared := fst (prepared_events self char st pool w) in
  e ∈ prepared /\ e ∈ pool /\
  (getChance e = 0%nat ->
     List.filter (nonzero Event getChance) prepared = [] /\
     last (List.filter (zero Event getChance) prepared) = Some e).
Proof.
  intros Hc pool prepared.
  pose proof (prepare_loop_spec Char Event getChance StateRef W prepare self char st
                pool [] 0%Z None w) as Hl.
  subst prepared. fold pool in Hc.
  destruct (prepared_events self char st pool w) as [ps w1] eqn:Hp. simpl.
  assert (Hsub : forall x, x ∈ ps -> x ∈ pool).
  { intros x Hx. apply (prepared_events_sub self char st pool w). now rewrite Hp. }
  unfold_chooseFromEvents in Hc. fold pool in Hc. rewrite Hl in Hc. simpl app in Hc.
  destruct (List.filter (nonzero Event getChance) ps) as [|c cs] eqn:En.
  - destruct (last (List.filter (zero Event getChance) ps)) as [d|] eqn:Hd;
      [|discriminate]. injection Hc as Heq _. subst d.
    assert (Hin : e ∈ ps).
    { apply last_Some_elem_of in Hd. apply list_elem_of_In in Hd.
      apply filter_In in Hd as [Hd _]. now apply list_elem_of_In. }
    split; [exact Hin|]. split; [now apply Hsub|]. intros _. split; reflexivity.
  - destruct (randint 0 (0 + weight Event getChance (c :: cs) - 1) w1) as [choice w2].
    injection Hc as Hs _. destruct (select_loop_in choice 0 (c :: cs) e Hs) as [Hin Hnz].
    rewrite <- En in Hin. apply list_elem_of_In, filter_In in Hin as [Hin _].
    apply list_elem_of_In in Hin.
    split; [exact Hin|]. split; [now apply Hsub|]. intros Hz. contradiction.
Qed.

End EngineChoice.

Section EngineExtras.

Variable Char : Type.
Variable Event : Type.
Variable getChance : Event -> nat.
Variable text : Event -> string.
Variable StateRef : Type.
Variable W : Type.
Variable prepare : Event -> Char -> list Char -> option StateRef -> W -> bool * W.
Variable ev_trigger : Event -> W -> (StateRef * list Event) * W.
Variable getReplacedText : StateRef -> string -> W -> string.
Variable getResultStrs : StateRef -> W -> list (Char * string).
Variable randint : Z -> Z -> W -> Z * W.
Variable char_isAlive : Char -> W -> bool.

Abbreviation Game := (Game Char Event).
Abbreviation tributes := (tributes Char Event).
Abbreviation events := (events Char Event).
Abbreviation chooseFromEvents :=
  (chooseFromEvents Char Event getChance StateRef W prepare randint).
Abbreviation trigger := (trigger Char Event getChance text StateRef W prepare ev_trigger
  getReplacedText getResultStrs randint).
Abbreviation round_loop := (round_loop Char Event getChance text StateRef W prepare
  ev_trigger getReplacedText getResultStrs randint char_isAlive).
Abbreviation round := (round Char Event getChance text StateRef W prepare
  ev_trigger getReplacedText getResultStrs randint char_isAlive).


Lemma round_loop_facts (fuel : nat) (self : Game) (ts : list Char) (w : W)
  (out : list (Char * list (TextResult Char))) (w' : W) :
  round_loop fuel self ts w = (Ok out, w') ->
  sublist (map fst out) ts /\
  (forall t res, (t, res) ∈ out ->
     exists w0 e w1 w2, char_isAlive t w0 = true /\
       chooseFromEvents self t [] None w0 = (Ok e, w1) /\
       trigger fuel self t e w1 = (Ok res, w2)).
Proof.
  revert w out w'. induction ts as [|t rest IH]; intros w out w' H; simpl in H.
  - injection H as <- _. split; [constructor|]. intros t res Hin. inversion Hin.
  - destruct (char_isAlive t w) eqn:Ea; simpl in H.
    + destruct (chooseFromEvents self t [] None w) as [[e|m] w1] eqn:Hc; [|discriminate].
      destruct (trigger fuel self t e w1) as [[res|m] w2] eqn:Ht; [|discriminate].
      destruct (round_loop fuel self rest w2) as [[l|m] w3] eqn:Hr; [|discriminate].
      injection H as <- _. destruct (IH _ _ _ Hr) as [Hs Hall].
      split; [simpl; now apply sublist_skip|].
      intros t' res' Hin. apply elem_of_cons in Hin as [Heq|Hin]; [|now apply Hall].
      injection Heq as -> ->. exists w, e, w1, w2. auto.
    + destruct (IH _ _ _ H) as [Hs Hall]. split; [now apply sublist_cons|exact Hall].
Qed.


End EngineExtras.

(** ** Further instances at concrete inputs *)

(** X5 on [two_alliances]: A resets, is alone, and the invariant breaks. *)
Lemma reset_keeps_character_in_old_alliance_witness :
  isAlone (reset two_alliances 0) 0 = true /\ ~ alliance_inv (reset two_alliances 0).
Proof.
  destruct (reset_keeps_character_in_old_alliance item_eq_by_id zone_eq_by_id
              two_alliances 0 (tribute "A" 0)) as (Ha & _ & _ & Hn).
  - by_eval.
  - by_eval.
  - reflexivity.
  - reflexivity.
  - split; [exact Ha|exact Hn].
Defined.

(** X13 on a suite with one authored "tag" condition. *)
Lemma load_then_addNearbyCheckIfNeeded_witness :
  let s := mkCheckSuite "tribute" [["tag"; "career"]] [AliveCheck "alive"; TagCheck "career"] in
  existsb is_AliveCheck (checks s) = true /\
  addNearbyCheckIfNeeded unit (fun _ _ => Ok tt) s tt = (Ok s, tt).
Proof.
  destruct (@load_then_addNearbyCheckIfNeeded unit (fun _ v => v) (fun _ _ => Ok tt)
              (fun _ v => v) (fun _ v => v) (fun _ _ => Ok tt) (fun _ _ => Ok tt)
              (fun _ => Ok tt) (fun _ _ => Ok []) (fun _ _ => Ok []) (fun _ => 0%Z)
              (CheckSuite_init "tribute" [["tag"; "career"]]) tt
              (mkCheckSuite "tribute" [["tag"; "career"]]
                 [AliveCheck "alive"; TagCheck "career"]) tt) as [Ha Hn].
  - reflexivity.
  - split; [exact Ha|exact (Hn tt)].
Defined.

(** X14 on the library of [toy_game]: "feast" is drawn, and it was prepared. *)
Lemma chooseFromEvents_returns_prepared_witness :
  chooseFromEvents string nat toy_chance nat Z toy_prepare toy_randint
    toy_game "Katniss" [] None 0%Z = (Ok 0, 1%Z) /\
  0 ∈ fst (prepared_events string nat nat Z toy_prepare toy_game "Katniss" None
             [0; 1; 2; 3] 0%Z).
Proof.
  split; [reflexivity|].
  destruct (@chooseFromEvents_returns_prepared string nat toy_chance nat Z toy_prepare
              toy_randint toy_game "Katniss" [] None 0%Z 0 1%Z) as [Hin _].
  - reflexivity.
  - exact Hin.
Defined.

